(** * The protocol dispatcher of the agent server and of the gateway

    A shallow embedding of [agents/server/main.py] (the in-process server
    variant) and of [gateway.py] (the gateway variant).  Both are request
    handlers that mutate process-wide dictionaries and call external
    collaborators; they are written here in a state-and-exception monad over
    an explicit store.  Every call to a collaborator is recorded in a log, so
    that statements such as "the classifier is not invoked" or "the sources
    are tried in order" can be read off the final store.

    Further modules embed [create_id_to_url_mappings] of [orchestrator.py],
    the methods of [FunctionCallingLlm] in
    [toolformers/llama/function_calling.py], and [load_config] of
    [agents/user/config.py]. *)

From Stdlib Require Import ZArith Ascii.
From stdpp Require Import gmap strings list fin_maps pretty.

Open Scope Z_scope.
Open Scope string_scope.
Open Scope list_scope.

(** ** Python exceptions and the handler monad *)

Inductive Exn : Type :=
  | KeyError (key : string)
  | NotFound (key : string)
  | AlreadyRegistered (key : string)
  | AlreadyExists (key : string)
  | External (what : string).

Inductive Outcome (A : Type) : Type :=
  | Return (a : A)
  | Raise (e : Exn).
Arguments Return {A} a.
Arguments Raise {A} e.

(** A computation over a store [S]: the store is threaded through, and a
    raised exception keeps the store as it was when it was raised (the
    dictionaries are mutated in place, nothing is rolled back). *)
Definition Comp (S A : Type) : Type := S -> S * Outcome A.

Definition ret {S A} (a : A) : Comp S A := fun s => (s, Return a).
Definition raise {S A} (e : Exn) : Comp S A := fun s => (s, Raise e).
Definition bind {S A B} (m : Comp S A) (k : A -> Comp S B) : Comp S B :=
  fun s => match m s with
           | (s', Return a) => k a s'
           | (s', Raise e) => (s', Raise e)
           end.
Definition gets {S A} (f : S -> A) : Comp S A := fun s => (s, Return (f s)).
Definition modify {S} (f : S -> S) : Comp S unit := fun s => (f s, Return tt).
(** [try: m except: h] with a bare [except]. *)
Definition try_except {S A} (m : Comp S A) (h : Comp S A) : Comp S A :=
  fun s => match m s with
           | (s', Return a) => (s', Return a)
           | (s', Raise _) => h s'
           end.

Declare Scope comp_scope.
Delimit Scope comp_scope with comp.
Notation "x <- m ;; k" := (bind m (fun x => k))
  (at level 100, m at next level, right associativity) : comp_scope.
Notation "m ;;; k" := (bind m (fun _ => k))
  (at level 100, right associativity) : comp_scope.

(** ** The server variant: [agents/server/main.py] *)

Module Server.

Inductive Suitability : Type := UNKNOWN | ADEQUATE | INADEQUATE.

Global Instance Suitability_eq_dec : EqDecision Suitability.
Proof. solve_decision. Defined.

(** One entry of [PROTOCOL_INFOS]. *)
Record ProtocolInfo : Type := mkInfo {
  source : string;
  suitability : Suitability;
  num_conversations : Z
}.

(** What a handler returns: the [{'status': .., 'message': ..}] dictionary,
    or whatever [reply_to_query] answered. *)
Inductive Response : Type :=
  | StatusMessage (status message : string)
  | Reply (text : string).

(** Calls to the collaborators, in the order they are made. *)
Inductive Event : Type :=
  | EReply (query : string) (context : option string)
  | ECheck (protocol_hash query : string)
  | ELoad (protocol_hash : string)
  | EWrite (protocol_hash : string)
  | EExecute (protocol_hash query : string)
  | EDownload (protocol_hash protocol_source : string).

Global Instance Event_eq_dec : EqDecision Event.
Proof. solve_decision. Defined.

(** The process-wide state: the registry, the stored routines, and the log
    of collaborator calls (most recent last). *)
Record Memory : Type := mkMemory {
  PROTOCOL_INFOS : gmap string ProtocolInfo;
  ROUTINES : gmap string string;
  LOG : list Event
}.

Definition empty_memory : Memory := mkMemory ∅ ∅ [].

Definition with_infos (f : gmap string ProtocolInfo -> gmap string ProtocolInfo)
    (m : Memory) : Memory :=
  mkMemory (f (PROTOCOL_INFOS m)) (ROUTINES m) (LOG m).
Definition with_routines (f : gmap string string -> gmap string string)
    (m : Memory) : Memory :=
  mkMemory (PROTOCOL_INFOS m) (f (ROUTINES m)) (LOG m).
Definition log (e : Event) (m : Memory) : Memory :=
  mkMemory (PROTOCOL_INFOS m) (ROUTINES m) (LOG m ++ [e]).

(** The collaborators the dispatcher calls and the core treats as opaque:
    the responder, the suitability checker, the programmer, the routine
    runner and the document fetcher.  [None] from the programmer or from the
    runner is a raised exception; [None] from the fetcher is Python's
    [None]. *)
Class Collaborators : Type := {
  respond : string -> option string -> string;
  check_suitability : string -> string -> bool;
  synthesize_routine : list string -> string -> option string;
  run_implementation : string -> string -> option string;
  fetch_and_verify : string -> string -> option string;
  stored_document : string -> string
}.

Section Dispatcher.
Context `{Collab : Collaborators}.

Local Abbreviation M := (Comp Memory).
Local Open Scope comp_scope.

Definition NUM_CONVERSATIONS_FOR_ROUTINE : Z := -1.

(** *** [agents/server/memory.py] *)

(** Modelled from the spec: [register_new_protocol] of the absent
    [agents/server/memory.py]; it fails with [AlreadyRegistered] if a record
    exists, and otherwise creates a record with suitability [UNKNOWN] and
    conversation count 0. *)
Definition register_new_protocol (protocol_hash protocol_source protocol_document : string)
    : M unit :=
  infos <- gets PROTOCOL_INFOS ;;
  match infos !! protocol_hash with
  | Some _ => raise (AlreadyRegistered protocol_hash)
  | None => modify (with_infos <[protocol_hash := mkInfo protocol_source UNKNOWN 0]>)
  end.

(** Modelled from the spec: [has_implementation] of the absent
    [agents/server/memory.py], the routine cache's [has]. *)
Definition has_implementation (protocol_hash : string) : M bool :=
  routines <- gets ROUTINES ;;
  ret (bool_decide (is_Some (routines !! protocol_hash))).

(** Modelled from the spec: [get_num_conversations] of the absent
    [agents/server/memory.py]; the registry's [get] answers [NotFound] for an
    identifier without a record. *)
Definition get_num_conversations (protocol_hash : string) : M Z :=
  infos <- gets PROTOCOL_INFOS ;;
  match infos !! protocol_hash with
  | Some info => ret (num_conversations info)
  | None => raise (NotFound protocol_hash)
  end.

Definition bump (info : ProtocolInfo) : ProtocolInfo :=
  mkInfo (source info) (suitability info) (num_conversations info + 1).

(** Modelled from the spec: [increment_num_conversations] of the absent
    [agents/server/memory.py]; an increment by one, and a no-op if the record
    does not exist. *)
Definition increment_num_conversations (protocol_hash : string) : M unit :=
  modify (with_infos (alter bump protocol_hash)).

(** Modelled from the spec: [add_routine] of the absent
    [agents/server/memory.py], the routine cache's [put]; it fails with
    [AlreadyExists] if an entry is present and otherwise stores the
    implementation. *)
Definition add_routine (protocol_hash implementation : string) : M unit :=
  routines <- gets ROUTINES ;;
  match routines !! protocol_hash with
  | Some _ => raise (AlreadyExists protocol_hash)
  | None => modify (with_routines <[protocol_hash := implementation]>)
  end.

(** *** [utils.py] and the specialized toolformers *)

(** Modelled from the spec: [load_protocol_document] of the absent
    [utils.py], an external fetch of the stored document. *)
Definition load_protocol_document (protocol_hash : string) : M string :=
  modify (log (ELoad protocol_hash)) ;;;
  ret (stored_document protocol_hash).

(** Modelled from the spec: [execute_routine] of the absent [utils.py]; it
    loads the implementation and runs it against the query, and either step
    may raise. *)
Definition execute_routine (protocol_hash query : string) : M string :=
  modify (log (EExecute protocol_hash query)) ;;;
  routines <- gets ROUTINES ;;
  match routines !! protocol_hash with
  | None => raise (NotFound protocol_hash)
  | Some implementation =>
      match run_implementation implementation query with
      | Some output => ret output
      | None => raise (External "routine")
      end
  end.

Definition download_and_verify_protocol (protocol_hash protocol_source : string)
    : M (option string) :=
  modify (log (EDownload protocol_hash protocol_source)) ;;;
  ret (fetch_and_verify protocol_hash protocol_source).

Definition reply_to_query (query : string) (context : option string) : M Response :=
  modify (log (EReply query context)) ;;;
  ret (Reply (respond query context)).

(** The log entries of the checker and of the programmer carry the protocol
    identifier the call is made for; the source passes the document only. *)
Definition check_protocol_for_tools (protocol_hash protocol_document query : string)
    : M bool :=
  modify (log (ECheck protocol_hash query)) ;;;
  ret (check_suitability protocol_document query).

Definition write_routine_for_tools (protocol_hash : string) (tools : list string)
    (protocol_document : string) : M string :=
  modify (log (EWrite protocol_hash)) ;;;
  match synthesize_routine tools protocol_document with
  | Some implementation => ret implementation
  | None => raise (External "programmer")
  end.

(** *** [agents/server/main.py] *)

Definition call_implementation (protocol_hash query : string) : M Response :=
  try_except
    (output <- execute_routine protocol_hash query ;;
     ret (StatusMessage "success" output))
    (ret (StatusMessage "error" "Failed to execute routine.")).

Definition handle_query_suitable (protocol_hash query : string) : M Response :=
  increment_num_conversations protocol_hash ;;;
  impl <- has_implementation protocol_hash ;;
  if (impl : bool) then call_implementation protocol_hash query
  else
    n <- get_num_conversations protocol_hash ;;
    if bool_decide (n >= NUM_CONVERSATIONS_FOR_ROUTINE) then
      protocol_document <- load_protocol_document protocol_hash ;;
      implementation <- write_routine_for_tools protocol_hash [] protocol_document ;;
      add_routine protocol_hash implementation ;;;
      call_implementation protocol_hash query
    else reply_to_query query (Some protocol_hash).

(** [PROTOCOL_INFOS[protocol_hash]['suitability']]. *)
Definition get_suitability (protocol_hash : string) : M Suitability :=
  infos <- gets PROTOCOL_INFOS ;;
  match infos !! protocol_hash with
  | Some info => ret (suitability info)
  | None => raise (KeyError protocol_hash)
  end.

Definition set_field_suitability (s : Suitability) (info : ProtocolInfo) : ProtocolInfo :=
  mkInfo (source info) s (num_conversations info).

(** [PROTOCOL_INFOS[protocol_hash]['suitability'] = s]. *)
Definition set_suitability (protocol_hash : string) (s : Suitability) : M unit :=
  infos <- gets PROTOCOL_INFOS ;;
  match infos !! protocol_hash with
  | Some _ => modify (with_infos (alter (set_field_suitability s) protocol_hash))
  | None => raise (KeyError protocol_hash)
  end.

(** The [for protocol_source in protocol_sources] loop of [handle_query],
    with the statement that follows it. *)
Fixpoint try_sources (protocol_hash : string) (protocol_sources : list string)
    (query : string) : M Response :=
  match protocol_sources with
  | [] => ret (StatusMessage "error" "No valid protocol source provided.")
  | protocol_source :: rest =>
      protocol_document <- download_and_verify_protocol protocol_hash protocol_source ;;
      match protocol_document with
      | Some document =>
          register_new_protocol protocol_hash protocol_source document ;;;
          handle_query_suitable protocol_hash query
      | None => try_sources protocol_hash rest query
      end
  end.

Definition handle_query (protocol_hash : option string) (protocol_sources : list string)
    (query : string) : M Response :=
  match protocol_hash with
  | None => reply_to_query query None
  | Some protocol_hash =>
      impl <- has_implementation protocol_hash ;;
      if (impl : bool) then call_implementation protocol_hash query
      else
        infos <- gets PROTOCOL_INFOS ;;
        if bool_decide (is_Some (infos !! protocol_hash)) then
          s <- get_suitability protocol_hash ;;
          (if bool_decide (s = UNKNOWN) then
             protocol_document <- load_protocol_document protocol_hash ;;
             ok <- check_protocol_for_tools protocol_hash protocol_document query ;;
             if (ok : bool) then set_suitability protocol_hash ADEQUATE
             else set_suitability protocol_hash INADEQUATE
           else ret tt) ;;;
          s' <- get_suitability protocol_hash ;;
          if bool_decide (s' = ADEQUATE) then handle_query_suitable protocol_hash query
          else ret (StatusMessage "error" "Protocol not suitable.")
        else try_sources protocol_hash protocol_sources query
  end.

(** A request as [main] of the server reads it from the JSON body. *)
Record Request : Type := mkRequest {
  protocolHash : option string;
  protocolSources : list string;
  body : string
}.

Definition main (data : Request) : M Response :=
  handle_query (protocolHash data) (protocolSources data) (body data).

(** Requests served one after the other; the store after the last one and
    the outcome of each. *)
Fixpoint serve (requests : list Request) (m : Memory) : Memory * list (Outcome Response) :=
  match requests with
  | [] => (m, [])
  | data :: rest =>
      let '(m1, out) := main data m in
      let '(m2, outs) := serve rest m1 in
      (m2, out :: outs)
  end.

(** *** The paths of the dispatcher, as relations

    The store updates each path performs, and the outcomes of a dispatch as
    an inductive relation; [handle_query] is shown below to follow it. *)

Definition logs (evs : list Event) (m : Memory) : Memory :=
  mkMemory (PROTOCOL_INFOS m) (ROUTINES m) (LOG m ++ evs).

Definition execution_result (implementation query : string) : Response :=
  match run_implementation implementation query with
  | Some output => StatusMessage "success" output
  | None => StatusMessage "error" "Failed to execute routine."
  end.

Definition not_suitable : Response := StatusMessage "error" "Protocol not suitable.".
Definition no_valid_source : Response :=
  StatusMessage "error" "No valid protocol source provided.".

(** The store once [h] has been counted, classified, registered. *)
Definition counted (h : string) (m : Memory) : Memory :=
  with_infos (alter bump h) m.
Definition classified (s : Suitability) (h q : string) (m : Memory) : Memory :=
  with_infos (alter (set_field_suitability s) h) (logs [ELoad h; ECheck h q] m).
Definition registered (h src : string) (m : Memory) : Memory :=
  with_infos <[h := mkInfo src UNKNOWN 0]> m.
Definition synthesized (h : string) (m : Memory) : Memory :=
  logs [ELoad h; EWrite h] (counted h m).

(** [handle_query_suitable] on a registered protocol without a routine. *)
Inductive Promotion (h q : string) (m : Memory) : Memory * Outcome Response -> Prop :=
  | promotion_fails info :
      PROTOCOL_INFOS m !! h = Some info ->
      NUM_CONVERSATIONS_FOR_ROUTINE <= num_conversations info + 1 ->
      synthesize_routine [] (stored_document h) = None ->
      Promotion h q m (synthesized h m, Raise (External "programmer"))
  | promotion_runs info impl :
      PROTOCOL_INFOS m !! h = Some info ->
      NUM_CONVERSATIONS_FOR_ROUTINE <= num_conversations info + 1 ->
      synthesize_routine [] (stored_document h) = Some impl ->
      Promotion h q m
        (log (EExecute h q) (with_routines <[h := impl]> (synthesized h m)),
         Return (execution_result impl q))
  | promotion_delegates info :
      PROTOCOL_INFOS m !! h = Some info ->
      num_conversations info + 1 < NUM_CONVERSATIONS_FOR_ROUTINE ->
      Promotion h q m
        (log (EReply q (Some h)) (counted h m), Return (Reply (respond q (Some h)))).

Definition fails (h : string) (src : string) : Prop := fetch_and_verify h src = None.

(** [handle_query] on a protocol identifier that is not [None]. *)
Inductive Dispatch (h : string) (srcs : list string) (q : string) (m : Memory)
    : Memory * Outcome Response -> Prop :=
  | dispatch_cached impl :
      ROUTINES m !! h = Some impl ->
      Dispatch h srcs q m (log (EExecute h q) m, Return (execution_result impl q))
  | dispatch_inadequate info :
      ROUTINES m !! h = None -> PROTOCOL_INFOS m !! h = Some info ->
      suitability info = INADEQUATE ->
      Dispatch h srcs q m (m, Return not_suitable)
  | dispatch_rejected info :
      ROUTINES m !! h = None -> PROTOCOL_INFOS m !! h = Some info ->
      suitability info = UNKNOWN ->
      check_suitability (stored_document h) q = false ->
      Dispatch h srcs q m (classified INADEQUATE h q m, Return not_suitable)
  | dispatch_adequate info r :
      ROUTINES m !! h = None -> PROTOCOL_INFOS m !! h = Some info ->
      suitability info = ADEQUATE ->
      Promotion h q m r ->
      Dispatch h srcs q m r
  | dispatch_accepted info r :
      ROUTINES m !! h = None -> PROTOCOL_INFOS m !! h = Some info ->
      suitability info = UNKNOWN ->
      check_suitability (stored_document h) q = true ->
      Promotion h q (classified ADEQUATE h q m) r ->
      Dispatch h srcs q m r
  | dispatch_no_source :
      ROUTINES m !! h = None -> PROTOCOL_INFOS m !! h = None ->
      Forall (fails h) srcs ->
      Dispatch h srcs q m (logs (EDownload h <$> srcs) m, Return no_valid_source)
  | dispatch_registered pre src post doc r :
      ROUTINES m !! h = None -> PROTOCOL_INFOS m !! h = None ->
      srcs = pre ++ src :: post ->
      Forall (fails h) pre ->
      fetch_and_verify h src = Some doc ->
      Promotion h q (registered h src (logs (EDownload h <$> pre ++ [src]) m)) r ->
      Dispatch h srcs q m r.

(** *** Observations on a store *)

Definition suitability_of (h : string) (m : Memory) : option Suitability :=
  suitability <$> PROTOCOL_INFOS m !! h.

Definition count_of (h : string) (m : Memory) : Z :=
  match PROTOCOL_INFOS m !! h with
  | Some info => num_conversations info
  | None => 0
  end.

Definition source_of (h : string) (m : Memory) : option string :=
  source <$> PROTOCOL_INFOS m !! h.

Definition counts_nonneg (m : Memory) : Prop :=
  forall h info, PROTOCOL_INFOS m !! h = Some info -> 0 <= num_conversations info.

(** The calls a dispatch from [m] to [m'] made. *)
Definition calls_since (m m' : Memory) : list Event :=
  drop (length (LOG m)) (LOG m').

(** The protocol identifier a call is made for. *)
Definition concerns (h : string) (e : Event) : Prop :=
  match e with
  | EReply _ context => context = Some h
  | ECheck k _ | ELoad k | EWrite k | EExecute k _ | EDownload k _ => k = h
  end.

Definition is_check (h : string) (e : Event) : bool :=
  match e with ECheck k _ => bool_decide (k = h) | _ => false end.
Definition is_download (e : Event) : bool :=
  match e with EDownload _ _ => true | _ => false end.
Definition is_reply (e : Event) : bool :=
  match e with EReply _ _ => true | _ => false end.
Definition is_reply_in_context (e : Event) : bool :=
  match e with EReply _ (Some _) => true | _ => false end.
Definition is_any_check (e : Event) : bool :=
  match e with ECheck _ _ => true | _ => false end.

(** The stores a sequence of requests goes through, the first included. *)
Fixpoint trajectory (requests : list Request) (m : Memory) : list Memory :=
  m :: match requests with
       | [] => []
       | data :: rest => trajectory rest (fst (main data m))
       end.

(** How one dispatch may change the suitability of a protocol. *)
Definition write_once (a b : option Suitability) : Prop :=
  a = b \/ (a = None /\ b = Some UNKNOWN)
  \/ (a = Some UNKNOWN /\ (b = Some ADEQUATE \/ b = Some INADEQUATE)).

(** The number of steps of a trajectory at which the suitability of a
    registered protocol changes. *)
Fixpoint suitability_changes (h : string) (ms : list Memory) : nat :=
  match ms with
  | a :: (b :: _) as rest =>
      (if bool_decide (is_Some (suitability_of h a)
                       /\ suitability_of h a <> suitability_of h b)
       then 1 else 0)%nat + suitability_changes h rest
  | _ => 0%nat
  end.

(** *** The [/wellknown] endpoint *)

(** The dictionary [wellknown] returns. *)
Record Wellknown : Type := mkWellknown {
  status : string;
  protocols : gmap string (list string)
}.

Definition wellknown : M Wellknown :=
  infos <- gets PROTOCOL_INFOS ;;
  ret (mkWellknown "success" ((fun info => [source info]) <$> infos)).

(** What [wellknown] advertises for [h] in the store [m]. *)
Definition advertised (h : string) (m : Memory) : Outcome (option (list string)) :=
  match (wellknown m).2 with
  | Return w => Return (protocols w !! h)
  | Raise e => Raise e
  end.

Definition is_write (h : string) (e : Event) : bool :=
  match e with EWrite k => bool_decide (k = h) | _ => false end.

Definition names (h : string) (data : Request) : Prop := protocolHash data = Some h.

End Dispatcher.

(** Collaborators for the worked examples: a checker that answers [ok], a
    runner that succeeds iff [runs], a programmer that succeeds iff
    [writes], and sources of which only [S1] and [S2] validate. *)
Definition example_collaborators (ok writes runs : bool) : Collaborators := {|
  respond := fun q _ => String.append "answer to " q;
  check_suitability := fun _ _ => ok;
  synthesize_routine := fun _ doc => if writes then Some (String.append "routine for " doc) else None;
  run_implementation := fun _ q => if runs then Some (String.append "output for " q) else None;
  fetch_and_verify := fun _ src =>
    if bool_decide (src = "S1" \/ src = "S2") then Some (String.append "document at " src) else None;
  stored_document := fun h => String.append "document of " h
|}.

Definition example_memory (s : Suitability) (n : Z) (cached : bool) : Memory :=
  mkMemory {["P1" := mkInfo "S1" s n]}
           (if cached then {["P1" := "routine"]} else ∅) [].

End Server.

(** ** The gateway variant: [gateway.py] *)

Module Gateway.

(** The JSON body of a request. *)
Record Data : Type := mkData {
  protocolHash : option string;
  body : string
}.

(** Calls to the other services, in the order they are made. *)
Inductive Event : Type :=
  | EModel (data : Data)
  | ERoutines
  | ECall (data : Data)
  | ECreate (protocol_hash : string).

(** The gateway's [HASH_COUNTER], the hashes the routine manager knows, and
    the log of calls (most recent last). *)
Record Store : Type := mkStore {
  HASH_COUNTER : gmap string Z;
  KNOWN : list string;
  LOG : list Event
}.

Definition empty_store : Store := mkStore ∅ [] [].

Definition with_counter (f : gmap string Z -> gmap string Z) (s : Store) : Store :=
  mkStore (f (HASH_COUNTER s)) (KNOWN s) (LOG s).
Definition with_known (known : list string) (s : Store) : Store :=
  mkStore (HASH_COUNTER s) known (LOG s).
Definition log (e : Event) (s : Store) : Store :=
  mkStore (HASH_COUNTER s) (KNOWN s) (LOG s ++ [e]).

(** The services behind the gateway: the model handler, the routine
    manager's [/call], and [create_and_save_routine] of the absent
    [programmer.py], which acts on the routine manager's hashes and returns
    or raises. *)
Class Services : Type := {
  model_handler : Data -> string;
  routine_manager : Data -> string;
  programmer : string -> list string -> list string * Outcome unit
}.

Section Gateway.
Context `{Serv : Services}.

Local Abbreviation G := (Comp Store).
Local Open Scope comp_scope.

Definition TRIGGER_NUM_CALLS : Z := 2.

(** [request_manager.post(MODEL_HANDLER_URL, json=data).json()] *)
Definition post_model_handler (data : Data) : G string :=
  modify (log (EModel data)) ;;;
  ret (model_handler data).

(** [request_manager.get(ROUTINE_MANAGER_URL + '/routines').json()['body']] *)
Definition get_routines : G (list string) :=
  modify (log ERoutines) ;;;
  gets KNOWN.

(** [request_manager.post(ROUTINE_MANAGER_URL + '/call', json=data).json()] *)
Definition post_call (data : Data) : G string :=
  modify (log (ECall data)) ;;;
  ret (routine_manager data).

Definition create_and_save_routine (protocol_hash : string) : G unit :=
  modify (log (ECreate protocol_hash)) ;;;
  fun s => let '(known, out) := programmer protocol_hash (KNOWN s) in
           (with_known known s, out).

(** [HASH_COUNTER[protocol_hash]] *)
Definition counter_at (protocol_hash : string) : G Z :=
  counter <- gets HASH_COUNTER ;;
  match counter !! protocol_hash with
  | Some n => ret n
  | None => raise (KeyError protocol_hash)
  end.

(** [HASH_COUNTER[protocol_hash] = HASH_COUNTER.get(protocol_hash, 0) + 1] *)
Definition count_call (protocol_hash : string) : G unit :=
  counter <- gets HASH_COUNTER ;;
  modify (with_counter <[protocol_hash := default 0 (counter !! protocol_hash) + 1]>).

Definition main (data : Data) : G string :=
  match protocolHash data with
  | None => post_model_handler data
  | Some protocol_hash =>
      known_hashes <- get_routines ;;
      if bool_decide (protocol_hash ∈ known_hashes) then post_call data
      else
        (if bool_decide (protocol_hash <> "chat") then count_call protocol_hash
         else ret tt) ;;;
        n <- counter_at protocol_hash ;;
        (if bool_decide (n >= TRIGGER_NUM_CALLS)
         then create_and_save_routine protocol_hash
         else ret tt) ;;;
        post_model_handler data
  end.

(** Requests served one after the other. *)
Fixpoint serve (requests : list Data) (s : Store) : Store * list (Outcome string) :=
  match requests with
  | [] => (s, [])
  | data :: rest =>
      let '(s1, out) := main data s in
      let '(s2, outs) := serve rest s1 in
      (s2, out :: outs)
  end.

(** The store once the call for [h] has been looked up and counted. *)
Definition counted (h : string) (s : Store) : Store :=
  with_counter <[h := default 0 (HASH_COUNTER s !! h) + 1]> (log ERoutines s).

Definition is_create (e : Event) : bool :=
  match e with ECreate _ => true | _ => false end.
Definition is_model (e : Event) : bool :=
  match e with EModel _ => true | _ => false end.

(** The calls a request from [s] to [s'] made, and those of them that
    forward the request to another service. *)
Definition calls_since (s s' : Store) : list Event :=
  drop (length (LOG s)) (LOG s').

End Gateway.

(** Services for the worked examples: a model handler that echoes the body,
    and a programmer that saves the routine iff [writes] and raises
    otherwise. *)
Definition example_services (writes : bool) : Services := {|
  model_handler := fun data => String.append "model: " (body data);
  routine_manager := fun data => String.append "routine: " (body data);
  programmer := fun h known =>
    if writes then (h :: known, Return tt) else (known, Raise (External "programmer"))
|}.

End Gateway.

(** ** The orchestrator: [orchestrator.py] *)

Module Orchestrator.

(** The part of [config.json] that [create_id_to_url_mappings] reads: the
    keys of [users] and of [servers] in their order, the list [protocolDbs],
    and the three starting ports. *)
Record Config : Type := mkConfig {
  users : list string;
  servers : list string;
  protocolDbs : list string;
  startingPorts_user : Z;
  startingPorts_server : Z;
  startingPorts_protocolDb : Z
}.

(** [f'http://localhost:{port}'] *)
Definition url (port : Z) : string := "http://localhost:" +:+ pretty port.

(** One of the three loops: [mapping[id] = url(port); port += 1]. *)
Fixpoint assign (ids : list string) (mapping : gmap string string) (port : Z)
    : gmap string string * Z :=
  match ids with
  | [] => (mapping, port)
  | id :: rest => assign rest (<[id := url port]> mapping) (port + 1)
  end.

Definition create_id_to_url_mappings (config : Config) : gmap string string :=
  let mapping := ∅ in
  let user_agent_port := startingPorts_user config in
  let '(mapping, _) := assign (users config) mapping user_agent_port in
  let server_agent_port := startingPorts_server config in
  let '(mapping, _) := assign (servers config) mapping server_agent_port in
  let protocol_db_port := startingPorts_protocolDb config in
  let '(mapping, _) := assign (protocolDbs config) mapping protocol_db_port in
  mapping.

Fixpoint occurs (c : ascii) (s : string) : bool :=
  match s with
  | EmptyString => false
  | String a rest => bool_decide (a = c) || occurs c rest
  end.

(** [s.split(sep)[-1]] for a one-character separator: what follows the last
    separator, and all of [s] if there is none. *)
Fixpoint last_field (sep : ascii) (s : string) : string :=
  match s with
  | EmptyString => EmptyString
  | String a rest =>
      if occurs sep rest then last_field sep rest
      else if bool_decide (a = sep) then rest
      else s
  end.

(** The port [main] launches a node on:
    [id_to_url_mappings[id].split(':')[-1]], a [KeyError] without the id. *)
Definition port_of (mapping : gmap string string) (id : string) : Outcome string :=
  match mapping !! id with
  | Some u => Return (last_field ":" u)
  | None => Raise (KeyError id)
  end.

Definition example_config : Config :=
  mkConfig ["alice"; "bob"] ["server1"] ["db1"; "db2"] 5000 6000 7000.

End Orchestrator.

(** ** The function-calling loop: [toolformers/llama/function_calling.py] *)

Module FunctionCalling.

(** JSON values as [json.loads] builds them; an object is the list of its
    members, the last one winning for a repeated key. *)
#[warnings="-register-all"] Inductive Json : Type :=
  | JNull
  | JBool (b : bool)
  | JNumber (n : Z)
  | JString (s : string)
  | JArray (items : list Json)
  | JObject (members : list (string * Json)).

(** The exceptions of this module. *)
Inductive PyError : Type :=
  | UnboundLocalError (name : string)
  | KeyError (key : string)
  | TypeError
  | AttributeError
  | IndexError
  | ValueError (message : string)
  | ToolError (message : string).

Inductive Result (A : Type) : Type :=
  | Ok (a : A)
  | Err (e : PyError).
Arguments Ok {A} a.
Arguments Err {A} e.

(** A tool: its name and what [call_tool_for_toolformer], given the keyword
    arguments, returns or raises. *)
Record Tool : Type := mkTool {
  name : string;
  call_tool_for_toolformer : list (string * Json) -> Result Json
}.

(** What is called from outside: a tool, by the name it is registered under
    and with its keyword arguments, or the model, with its prompt. *)
Inductive Call : Type :=
  | ToolCall (key : string) (kwargs : list (string * Json))
  | ModelCall (prompt : string).

(** Computations that call tools: the calls made so far are threaded
    through, and kept when an exception is raised. *)
Definition Py (A : Type) : Type := list Call -> list Call * Result A.

Definition pure {A} (a : A) : Py A := fun calls => (calls, Ok a).
Definition throw {A} (e : PyError) : Py A := fun calls => (calls, Err e).
Definition lift {A} (r : Result A) : Py A := fun calls => (calls, r).
Definition and_then {A B} (m : Py A) (k : A -> Py B) : Py B :=
  fun calls => match m calls with
               | (calls', Ok a) => k a calls'
               | (calls', Err e) => (calls', Err e)
               end.

Declare Scope py_scope.
Delimit Scope py_scope with py.
Notation "x <~ m ;; k" := (and_then m (fun x => k))
  (at level 100, m at next level, right associativity) : py_scope.

(** The text operations of Python the module relies on: [str.lower] and the
    [repr] that [str()] and f-strings use for values other than strings. *)
Class Text : Type := {
  lower : string -> string;
  repr : Json -> string
}.

(** A message of the history: its [type] and its [content]. *)
Record Message : Type := mkMessage {
  type : string;
  content : string
}.

(** What the class needs from outside: the two regular-expression searches
    of [json_finder] ([group(1)] of the [<ToolCalls>] pattern and [group(0)]
    of the bracket pattern), [json.loads] on a bracketed text (the items of
    the array, or the text of the exception), [json.dumps] of the role and
    content pairs, the model, and the history that the prompt template
    yields for the tools' schemas. *)
Class Environment : Type := {
  search_tool_calls : string -> option string;
  search_list : string -> option string;
  json_loads : string -> list Json + string;
  json_dumps : list (string * string) -> string;
  llm_invoke : string -> string;
  format_prompt : list Tool -> list Message;
  get_total_usage : Json
}.

(** [self]: the fields the methods read. *)
Record FunctionCallingLlm : Type := mkLlm {
  tools : option (list Tool);
  api : string
}.

Section Methods.
Context `{Txt : Text} `{Env : Environment}.
Local Open Scope py_scope.

(** [v[key]] for a string key. *)
Definition subscript (v : Json) (key : string) : Result Json :=
  match v with
  | JObject members =>
      match list_find (fun m => m.1 = key) (reverse members) with
      | Some (_, (_, x)) => Ok x
      | None => Err (KeyError key)
      end
  | _ => Err TypeError
  end.

(** [v.lower()] *)
Definition lowered (v : Json) : Result string :=
  match v with
  | JString s => Ok (lower s)
  | _ => Err AttributeError
  end.

(** [str(v)], also what an f-string prints for [v]. *)
Definition str (v : Json) : string :=
  match v with
  | JString s => s
  | _ => repr v
  end.

(** [{tool.name.lower(): tool for tool in self.tools}] *)
Definition tools_map_of (ts : list Tool) : gmap string Tool :=
  foldl (fun mp t => <[lower (name t) := t]> mp) ∅ ts.

(** [tool.call_tool_for_toolformer] on the unpacked [tool_input], recorded;
    unpacking anything but an object is a [TypeError]. *)
Definition call_tool (key : string) (t : Tool) (kwargs : Json) : Py Json :=
  match kwargs with
  | JObject members =>
      fun calls =>
        (calls ++ [ToolCall key members], call_tool_for_toolformer t members)
  | _ => throw TypeError
  end.

(** The body of the [for tool in invoked_tools] loop of [execute], on the
    messages collected so far. *)
Definition execute_one (tools_map : gmap string Tool) (tool : Json)
    (tools_msgs : list string) : Py (list string) :=
  tool_name <~ lift (subscript tool "tool") ;;
  key <~ lift (lowered tool_name) ;;
  if bool_decide (key = "invocationerror") then
    tool_input <~ lift (subscript tool "tool_input") ;;
    pure (tools_msgs ++ ["Tool invocation error: " +:+ str tool_input])
  else if bool_decide (key <> "conversationalresponse") then
    tool_input <~ lift (subscript tool "tool_input") ;;
    match tools_map !! key with
    | None => pure (tools_msgs ++ ["Tool " +:+ str tool_name +:+ " not found"])
    | Some t =>
        response <~ call_tool key t tool_input ;;
        pure (tools_msgs
              ++ ["Tool '" +:+ str tool_name +:+ "'response: " +:+ str response])
    end
  else pure tools_msgs.

(** The loop: [final_answer] is bound by the first iteration. *)
Fixpoint execute_loop (tools_map : gmap string Tool) (invoked_tools : list Json)
    (final_answer : option bool) (tools_msgs : list string)
    : Py (option bool * list string) :=
  match invoked_tools with
  | [] => pure (final_answer, tools_msgs)
  | tool :: rest =>
      tools_msgs' <~ execute_one tools_map tool tools_msgs ;;
      execute_loop tools_map rest (Some false) tools_msgs'
  end.

(** [execute] from the loop on: the loop and the [return] after it. *)
Definition execute_all (tools_map : gmap string Tool) (invoked_tools : list Json)
    : Py (bool * list Json) :=
  r <~ execute_loop tools_map invoked_tools None [] ;;
  match r.1 with
  | Some final_answer => pure (final_answer, JString <$> r.2)
  | None => throw (UnboundLocalError "final_answer")
  end.

Definition execute (self : FunctionCallingLlm) (invoked_tools : list Json)
    : Py (bool * list Json) :=
  let tools_map :=
    match tools self with
    | Some ts => tools_map_of ts
    | None => ∅
    end in
  match invoked_tools with
  | [tool] =>
      tool_name <~ lift (subscript tool "tool") ;;
      key <~ lift (lowered tool_name) ;;
      if bool_decide (key = "conversationalresponse") then
        tool_input <~ lift (subscript tool "tool_input") ;;
        response <~ lift (subscript tool_input "response") ;;
        pure (true, [response])
      else execute_all tools_map invoked_tools
  | _ => execute_all tools_map invoked_tools
  end.

Definition invocation (tool_name : string) (tool_input : Json) : Json :=
  JObject [("tool", JString tool_name); ("tool_input", tool_input)].

Definition json_finder (input_string : string) : list Json :=
  match search_tool_calls input_string with
  | Some json_str =>
      match search_list json_str with
      | Some json_str =>
          match json_loads json_str with
          | inl items => items
          | inr e => [invocation "InvocationError" (JString e)]
          end
      | None =>
          [invocation "InvocationError"
             (JString "Could not find JSON object in the <ToolCalls> section")]
      end
  | None =>
      [invocation "ConversationalResponse" (JObject [("response", JString input_string)])]
  end.

(** ['\n'.join(pieces)] *)
Fixpoint join_lines (pieces : list string) : string :=
  match pieces with
  | [] => ""
  | [piece] => piece
  | piece :: rest => piece +:+ String "010" (join_lines rest)
  end.

Definition llama3_piece (msg : Message) : Result string :=
  if bool_decide (type msg = "system") then
    Ok ("<|begin_of_text|><|start_header_id|>system<|end_header_id|>system<|end_header_id|> "
        +:+ content msg)
  else if bool_decide (type msg = "human") then
    Ok ("<|eot_id|><|start_header_id|>user<|end_header_id|>" +:+ String "010" "User: "
        +:+ content msg
        +:+ " <|eot_id|><|start_header_id|>assistant<|end_header_id|>"
        +:+ String "010" "Assistant:")
  else if bool_decide (type msg = "ai") then
    Ok ("<|eot_id|><|start_header_id|>assistant<|end_header_id|>"
        +:+ String "010" "Assistant: " +:+ content msg)
  else if bool_decide (type msg = "tool") then
    Ok ("<|eot_id|><|start_header_id|>tools<|end_header_id|>" +:+ String "010" ""
        +:+ content msg
        +:+ " <|eot_id|><|start_header_id|>assistant<|end_header_id|>"
        +:+ String "010" "Assistant:")
  else Err (ValueError ("Invalid message type: " +:+ type msg)).

Definition sncloud_piece (msg : Message) : Result (string * string) :=
  if bool_decide (type msg = "system") then Ok ("system", content msg)
  else if bool_decide (type msg = "human") then Ok ("user", content msg)
  else if bool_decide (type msg = "ai") then Ok ("assistant", content msg)
  else if bool_decide (type msg = "tool") then Ok ("tools", content msg)
  else Err (ValueError ("Invalid message type: " +:+ type msg)).

(** The [for msg in msgs] loop shared by the two converters. *)
Fixpoint format_all {A} (piece : Message -> Result A) (msgs : list Message)
    (formatted_msgs : list A) : Result (list A) :=
  match msgs with
  | [] => Ok formatted_msgs
  | msg :: rest =>
      match piece msg with
      | Ok p => format_all piece rest (formatted_msgs ++ [p])
      | Err e => Err e
      end
  end.

Definition msgs_to_llama3_str (msgs : list Message) : Result string :=
  match format_all llama3_piece msgs [] with
  | Ok formatted_msgs => Ok (join_lines formatted_msgs)
  | Err e => Err e
  end.

Definition msgs_to_sncloud (msgs : list Message) : Result string :=
  match format_all sncloud_piece msgs [] with
  | Ok formatted_msgs => Ok (json_dumps formatted_msgs)
  | Err e => Err e
  end.

(** ['\n'.join(tools_msgs)], a [TypeError] for an item that is not a
    string. *)
Fixpoint as_strings (items : list Json) : Result (list string) :=
  match items with
  | [] => Ok []
  | JString s :: rest =>
      match as_strings rest with
      | Ok l => Ok (s :: l)
      | Err e => Err e
      end
  | _ :: _ => Err TypeError
  end.

Definition prompt_of (self : FunctionCallingLlm) (history : list Message)
    : Result string :=
  if bool_decide (api self = "sncloud") then msgs_to_sncloud history
  else msgs_to_llama3_str history.

Definition invoke (prompt : string) : Py string :=
  fun calls => (calls ++ [ModelCall prompt], Ok (llm_invoke prompt)).

(** The [for i in range(max_it)] loop of [function_call_llm], with the
    implicit [return None] after it. *)
Fixpoint iterate (self : FunctionCallingLlm) (iterations : nat)
    (history : list Message) : Py (option (Json * Json)) :=
  match iterations with
  | O => pure None
  | S iterations =>
      prompt <~ lift (prompt_of self history) ;;
      llm_response <~ invoke prompt ;;
      let parsed_tools_llm_response := json_finder llm_response in
      let history := history ++ [mkMessage "ai" llm_response] in
      r <~ execute self parsed_tools_llm_response ;;
      if (r.1 : bool) then
        match r.2 with
        | final_response :: _ => pure (Some (final_response, get_total_usage))
        | [] => throw IndexError
        end
      else
        lines <~ lift (as_strings r.2) ;;
        iterate self iterations (history ++ [mkMessage "tool" (join_lines lines)])
  end.

Definition function_call_llm (self : FunctionCallingLlm) (query : string) (max_it : Z)
    : Py (option (Json * Json)) :=
  match tools self with
  | None => throw TypeError
  | Some ts =>
      let history := format_prompt ts in
      let history := history ++ [mkMessage "human" query] in
      iterate self (Z.to_nat max_it) history
  end.


(** An invocation of the conversational response. *)
Definition conversational (tool : Json) : Prop :=
  exists s, subscript tool "tool" = Ok (JString s)
            /\ lower s = "conversationalresponse".

(** A call of a tool that the map holds under the key called. *)
Definition from_map (tools_map : gmap string Tool) (c : Call) : Prop :=
  exists key kwargs t, c = ToolCall key kwargs /\ tools_map !! key = Some t.

Definition valid_type (msg : Message) : Prop :=
  type msg = "system" \/ type msg = "human" \/ type msg = "ai" \/ type msg = "tool".

End Methods.

(** Lowercasing of the letters A to Z, for the worked examples. *)
Definition lower_ascii (c : ascii) : ascii :=
  let n := nat_of_ascii c in
  if (65 <=? n)%nat && (n <=? 90)%nat then ascii_of_nat (n + 32) else c.

Fixpoint lower_string (s : string) : string :=
  match s with
  | EmptyString => EmptyString
  | String c rest => String (lower_ascii c) (lower_string rest)
  end.

Definition example_text : Text := {|
  lower := lower_string;
  repr := fun _ => "<value>"
|}.

(** An environment for the worked examples: a model whose every answer is
    [answer], in which the searches find a [<ToolCalls>] section with the
    bracketed text iff [section] is given, and [json.loads] returns
    [section]. *)
Definition example_environment (answer : string) (section : option (list Json + string))
    : Environment := {|
  search_tool_calls := fun _ =>
    match section with Some _ => Some "[...]" | None => None end;
  search_list := fun _ => Some "[...]";
  json_loads := fun _ => default (inl []) section;
  json_dumps := fun pairs => join_lines (snd <$> pairs);
  llm_invoke := fun _ => answer;
  format_prompt := fun _ => [mkMessage "system" "You have access to tools"];
  get_total_usage := JNumber 0
|}.

Definition example_tool : Tool :=
  mkTool "weather" (fun _ => Ok (JString "sunny")).

End FunctionCalling.

(** ** The user agent's configuration: [agents/user/config.py] *)

Module UserConfig.

(** One entry of a user's [tasks]. *)
Record TaskConfig : Type := mkTask {
  schema : string;
  choices : list string;
  servers : list string
}.

(** [config['users'][user_name]] *)
Record UserEntry : Type := mkUser {
  tasks : list TaskConfig;
  protocolDb : string
}.

(** What [load_config] reads of [config.json]: the items of [taskSchemas]
    and the [users] dictionary. *)
Record ConfigFile : Type := mkConfigFile {
  taskSchemas : list (string * string);
  users : gmap string UserEntry
}.

(** The module's globals. *)
Record Globals : Type := mkGlobals {
  TASK_CONFIGS : list TaskConfig;
  TASK_SCHEMAS : gmap string string;
  NODE_URLS : gmap string string;
  _PROTOCOL_DB_URL : option string
}.

Definition initial_globals : Globals := mkGlobals [] ∅ ∅ None.

Local Open Scope comp_scope.

Definition get_protocol_db_url (g : Globals) : option string := _PROTOCOL_DB_URL g.

(** [load_config], given the contents of [config.json] and of
    [node_urls.json]. *)
Definition load_config (user_name : string) (config : ConfigFile)
    (node_urls : gmap string string) : Comp Globals unit :=
  modify (fun g =>
    mkGlobals (TASK_CONFIGS g)
      (foldl (fun schemas item => <[item.1 := item.2]> schemas) (TASK_SCHEMAS g)
         (taskSchemas config))
      (NODE_URLS g) (_PROTOCOL_DB_URL g)) ;;;
  user_config <- match users config !! user_name with
                 | Some u => ret u
                 | None => raise (KeyError user_name)
                 end ;;
  modify (fun g =>
    mkGlobals (TASK_CONFIGS g ++ tasks user_config) (TASK_SCHEMAS g)
      (NODE_URLS g) (_PROTOCOL_DB_URL g)) ;;;
  modify (fun g =>
    mkGlobals (TASK_CONFIGS g) (TASK_SCHEMAS g)
      (node_urls ∪ NODE_URLS g) (_PROTOCOL_DB_URL g)) ;;;
  urls <- gets NODE_URLS ;;
  db_url <- match urls !! protocolDb user_config with
            | Some u => ret u
            | None => raise (KeyError (protocolDb user_config))
            end ;;
  modify (fun g =>
    mkGlobals (TASK_CONFIGS g) (TASK_SCHEMAS g) (NODE_URLS g) (Some db_url)).

Definition example_file : ConfigFile :=
  mkConfigFile [("weather", "schema of weather")]
    {["alice" := mkUser [mkTask "weather" ["Rome"; "Oslo"] ["server1"]] "db2"]}.

End UserConfig.

(** ** The server variant: what the dispatcher does *)

Module ServerProofs.
Import Server.

Ltac st := cbn [PROTOCOL_INFOS ROUTINES LOG].

Ltac run :=
  unfold handle_query, handle_query_suitable, call_implementation, try_except,
    execute_routine, load_protocol_document, write_routine_for_tools,
    check_protocol_for_tools, reply_to_query, download_and_verify_protocol,
    add_routine, increment_num_conversations, get_num_conversations,
    has_implementation, register_new_protocol, get_suitability, set_suitability,
    bind, modify, gets, ret, raise, synthesized, counted, classified, registered,
    logs, with_infos, with_routines, log;
  st.

Ltac no_routine := rewrite bool_decide_false by (intros [? ?]; discriminate).

Ltac open_store :=
  unfold synthesized, counted, classified, registered, logs, with_infos,
    with_routines, log in *; st.

Ltac invert_promotion H :=
  inversion H as [pinfo Pi Pn Ps | pinfo pimpl Pi Pn Ps | pinfo Pi Pn]; subst; clear H.

Ltac invert_dispatch H :=
  let HP := fresh "HP" in
  inversion H as
    [ impl Er
    | info Er Ei Es
    | info Er Ei Es Ec
    | info r Er Ei Es HP
    | info r Er Ei Es Ec HP
    | Er Ei Hf
    | pre src post doc r Er Ei Hsrcs Hf Hs HP ];
  subst; clear H; try invert_promotion HP.


Section Paths.
Context `{Collab : Collaborators}.
Local Open Scope comp_scope.

Lemma call_implementation_cached h q m impl :
  ROUTINES m !! h = Some impl ->
  call_implementation h q m = (log (EExecute h q) m, Return (execution_result impl q)).
Proof.
  intros E. run. rewrite E. unfold execution_result.
  destruct (run_implementation impl q); reflexivity.
Qed.

Lemma call_implementation_missing h q m :
  ROUTINES m !! h = None ->
  call_implementation h q m
  = (log (EExecute h q) m, Return (StatusMessage "error" "Failed to execute routine.")).
Proof. intros E. run. rewrite E. reflexivity. Qed.

Lemma handle_query_cached h srcs q m impl :
  ROUTINES m !! h = Some impl ->
  handle_query (Some h) srcs q m = call_implementation h q m.
Proof.
  intros E. unfold handle_query, has_implementation, bind, gets, ret.
  rewrite bool_decide_true; [reflexivity | rewrite E; eauto].
Qed.

Lemma handle_query_suitable_cached h q m impl :
  ROUTINES m !! h = Some impl ->
  handle_query_suitable h q m = call_implementation h q (counted h m).
Proof.
  intros E.
  unfold handle_query_suitable, increment_num_conversations, has_implementation,
    bind, gets, ret, modify, counted, with_infos.
  st. rewrite bool_decide_true; [reflexivity | rewrite E; eauto].
Qed.

Lemma handle_query_suitable_promote h q m info :
  PROTOCOL_INFOS m !! h = Some info -> ROUTINES m !! h = None ->
  NUM_CONVERSATIONS_FOR_ROUTINE <= num_conversations info + 1 ->
  handle_query_suitable h q m =
    match synthesize_routine [] (stored_document h) with
    | None => (synthesized h m, Raise (External "programmer"))
    | Some impl =>
        (log (EExecute h q) (with_routines <[h := impl]> (synthesized h m)),
         Return (execution_result impl q))
    end.
Proof.
  intros Ei Er Hn. run. rewrite Er. no_routine.
  st. rewrite lookup_alter_eq, Ei. cbn [fmap option_fmap option_map bump num_conversations].
  rewrite bool_decide_true by lia.
  rewrite <- app_assoc. cbn [app].
  destruct (synthesize_routine [] (stored_document h)) as [impl|]; [|reflexivity].
  st. rewrite Er. st. rewrite lookup_insert_eq. unfold execution_result.
  destruct (run_implementation impl q); reflexivity.
Qed.

Lemma handle_query_suitable_delegate h q m info :
  PROTOCOL_INFOS m !! h = Some info -> ROUTINES m !! h = None ->
  num_conversations info + 1 < NUM_CONVERSATIONS_FOR_ROUTINE ->
  handle_query_suitable h q m =
    (log (EReply q (Some h)) (counted h m), Return (Reply (respond q (Some h)))).
Proof.
  intros Ei Er Hn. run. rewrite Er. no_routine.
  st. rewrite lookup_alter_eq, Ei. cbn [fmap option_fmap option_map bump num_conversations].
  rewrite bool_decide_false by lia. reflexivity.
Qed.

(** [handle_query_suitable] follows [Promotion]. *)
Lemma handle_query_suitable_Promotion h q m info :
  PROTOCOL_INFOS m !! h = Some info -> ROUTINES m !! h = None ->
  Promotion h q m (handle_query_suitable h q m).
Proof.
  intros Ei Er.
  destruct (Z_lt_le_dec (num_conversations info + 1) NUM_CONVERSATIONS_FOR_ROUTINE) as [Hn|Hn].
  - rewrite (handle_query_suitable_delegate h q m info) by assumption.
    eapply promotion_delegates; eassumption.
  - rewrite (handle_query_suitable_promote h q m info) by assumption.
    destruct (synthesize_routine [] (stored_document h)) as [impl|] eqn:Es.
    + eapply promotion_runs; eassumption.
    + eapply promotion_fails; eassumption.
Qed.

Lemma handle_query_inadequate h srcs q m info :
  ROUTINES m !! h = None -> PROTOCOL_INFOS m !! h = Some info ->
  suitability info = INADEQUATE ->
  handle_query (Some h) srcs q m = (m, Return not_suitable).
Proof.
  intros Er Ei Es. run. rewrite Er. no_routine.
  rewrite bool_decide_true by (rewrite Ei; eauto).
  rewrite Ei, Es. rewrite bool_decide_false by discriminate.
  rewrite Ei, Es. rewrite bool_decide_false by discriminate. reflexivity.
Qed.

Lemma handle_query_adequate h srcs q m info :
  ROUTINES m !! h = None -> PROTOCOL_INFOS m !! h = Some info ->
  suitability info = ADEQUATE ->
  handle_query (Some h) srcs q m = handle_query_suitable h q m.
Proof.
  intros Er Ei Es. unfold handle_query, has_implementation, get_suitability, bind, gets, ret.
  rewrite Er. no_routine.
  rewrite bool_decide_true by (rewrite Ei; eauto).
  rewrite Ei, Es. rewrite bool_decide_false by discriminate.
  rewrite Ei, Es. rewrite bool_decide_true by reflexivity. reflexivity.
Qed.

Lemma handle_query_unknown h srcs q m info :
  ROUTINES m !! h = None -> PROTOCOL_INFOS m !! h = Some info ->
  suitability info = UNKNOWN ->
  handle_query (Some h) srcs q m =
    if check_suitability (stored_document h) q
    then handle_query_suitable h q (classified ADEQUATE h q m)
    else (classified INADEQUATE h q m, Return not_suitable).
Proof.
  intros Er Ei Es.
  unfold handle_query, has_implementation, get_suitability, set_suitability,
    load_protocol_document, check_protocol_for_tools, bind, gets, ret, modify, raise.
  rewrite Er. no_routine.
  rewrite bool_decide_true by (rewrite Ei; eauto).
  rewrite Ei, Es. rewrite bool_decide_true by reflexivity.
  unfold log. st.
  destruct (check_suitability (stored_document h) q); st; rewrite Ei;
    unfold with_infos; st; rewrite lookup_alter_eq, Ei;
    cbn [fmap option_fmap option_map set_field_suitability suitability];
    [rewrite bool_decide_true by reflexivity | rewrite bool_decide_false by discriminate];
    unfold classified, logs, with_infos; st; rewrite <- app_assoc; reflexivity.
Qed.

Lemma handle_query_unregistered h srcs q m :
  ROUTINES m !! h = None -> PROTOCOL_INFOS m !! h = None ->
  handle_query (Some h) srcs q m = try_sources h srcs q m.
Proof.
  intros Er Ei. unfold handle_query, has_implementation, bind, gets, ret.
  rewrite Er. no_routine.
  rewrite bool_decide_false by (rewrite Ei; intros [? ?]; discriminate).
  reflexivity.
Qed.

Lemma logs_nil m : logs [] m = m.
Proof. destruct m. unfold logs. st. by rewrite app_nil_r. Qed.

Lemma logs_cons e evs m : logs (e :: evs) m = logs evs (log e m).
Proof. unfold logs, log. st. by rewrite <- app_assoc. Qed.

Lemma try_sources_none h srcs q m :
  Forall (fails h) srcs ->
  try_sources h srcs q m = (logs (EDownload h <$> srcs) m, Return no_valid_source).
Proof.
  intros Hf. revert m. induction Hf as [|src rest Hs _ IH]; intros m.
  - cbn. by rewrite logs_nil.
  - cbn [try_sources fmap list_fmap]. rewrite logs_cons.
    unfold download_and_verify_protocol, bind, modify, ret.
    rewrite Hs. apply IH.
Qed.

Lemma try_sources_first h pre src post doc q m :
  PROTOCOL_INFOS m !! h = None ->
  Forall (fails h) pre -> fetch_and_verify h src = Some doc ->
  try_sources h (pre ++ src :: post) q m
  = handle_query_suitable h q (registered h src (logs (EDownload h <$> pre ++ [src]) m)).
Proof.
  intros Ei Hf Hs. revert m Ei. induction Hf as [|x rest Hx _ IH]; intros m Ei.
  - cbn [app try_sources fmap list_fmap].
    unfold download_and_verify_protocol, register_new_protocol, bind, modify, ret, gets, raise.
    rewrite Hs. unfold log; st. rewrite Ei. reflexivity.
  - cbn [app try_sources fmap list_fmap]. rewrite logs_cons.
    unfold download_and_verify_protocol, bind, modify, ret.
    rewrite Hx. apply IH. exact Ei.
Qed.

(** A source list either fails throughout or has a first valid source. *)
Lemma first_valid_source h (srcs : list string) :
  Forall (fails h) srcs
  \/ exists pre src post doc,
       srcs = pre ++ src :: post /\ Forall (fails h) pre
       /\ fetch_and_verify h src = Some doc.
Proof.
  induction srcs as [|x rest IH]; [left; constructor|].
  destruct (fetch_and_verify h x) as [doc|] eqn:Ex.
  - right. exists [], x, rest, doc. repeat split; [constructor | exact Ex].
  - destruct IH as [Hf | (pre & src & post & doc & -> & Hf & Hs)].
    + left. constructor; assumption.
    + right. exists (x :: pre), src, post, doc. repeat split; [constructor|]; assumption.
Qed.

(** [handle_query] follows [Dispatch]. *)
Lemma handle_query_Dispatch h srcs q m :
  Dispatch h srcs q m (handle_query (Some h) srcs q m).
Proof.
  destruct (ROUTINES m !! h) as [impl|] eqn:Er.
  - rewrite (handle_query_cached h srcs q m impl Er),
      (call_implementation_cached h q m impl Er).
    by apply dispatch_cached.
  - destruct (PROTOCOL_INFOS m !! h) as [info|] eqn:Ei.
    + destruct (suitability info) eqn:Es.
      * rewrite (handle_query_unknown h srcs q m info Er Ei Es).
        destruct (check_suitability (stored_document h) q) eqn:Ec.
        -- eapply dispatch_accepted; try eassumption.
           eapply handle_query_suitable_Promotion.
           ++ unfold classified, with_infos, logs. st. rewrite lookup_alter_eq, Ei. reflexivity.
           ++ exact Er.
        -- eapply dispatch_rejected; eassumption.
      * rewrite (handle_query_adequate h srcs q m info Er Ei Es).
        eapply dispatch_adequate; try eassumption.
        eapply handle_query_suitable_Promotion; eassumption.
      * rewrite (handle_query_inadequate h srcs q m info Er Ei Es).
        eapply dispatch_inadequate; eassumption.
    + rewrite (handle_query_unregistered h srcs q m Er Ei).
      destruct (first_valid_source h srcs)
        as [Hf | (pre & src & post & doc & -> & Hf & Hs)].
      * rewrite (try_sources_none h srcs q m Hf). by apply dispatch_no_source.
      * rewrite (try_sources_first h pre src post doc q m Ei Hf Hs).
        eapply dispatch_registered; try eassumption; [reflexivity|].
        eapply handle_query_suitable_Promotion.
        -- unfold registered, with_infos, logs. st. apply lookup_insert_eq.
        -- exact Er.
Qed.

End Paths.


Section Effects.
Context `{Collab : Collaborators}.

Lemma calls_since_app m m' evs : LOG m' = LOG m ++ evs -> calls_since m m' = evs.
Proof. intros E. unfold calls_since. rewrite E. apply drop_app_length. Qed.

Lemma Promotion_log h q m m' out :
  Promotion h q m (m', out) ->
  exists evs, LOG m' = LOG m ++ evs /\ Forall (concerns h) evs
    /\ filter is_any_check evs = [] /\ filter is_download evs = [].
Proof.
  intros H. invert_promotion H; open_store.
  - exists [ELoad h; EWrite h]. repeat split. repeat constructor.
  - exists [ELoad h; EWrite h; EExecute h q]. rewrite <- app_assoc.
    repeat split. repeat constructor.
  - exists [EReply q (Some h)]. repeat split. repeat constructor.
Qed.

Lemma Promotion_infos h q m m' out :
  Promotion h q m (m', out) ->
  PROTOCOL_INFOS m' = alter bump h (PROTOCOL_INFOS m).
Proof. intros H. invert_promotion H; reflexivity. Qed.

Lemma Promotion_routines h q m m' out :
  Promotion h q m (m', out) ->
  ROUTINES m' = ROUTINES m
  \/ exists impl, synthesize_routine [] (stored_document h) = Some impl
       /\ ROUTINES m' = <[h := impl]> (ROUTINES m).
Proof. intros H. invert_promotion H; open_store; eauto. Qed.

(** The calls of one dispatch are appended to the log and concern the
    protocol of the request. *)
Lemma Dispatch_log h srcs q m m' out :
  Dispatch h srcs q m (m', out) ->
  exists evs, LOG m' = LOG m ++ evs /\ Forall (concerns h) evs.
Proof.
  intros H.
  inversion H as
    [ impl Er | info Er Ei Es | info Er Ei Es Ec | info r Er Ei Es HP
    | info r Er Ei Es Ec HP | Er Ei Hf
    | pre src post doc r Er Ei Hsrcs Hf Hs HP ]; subst; clear H.
  - exists [EExecute h q]. split; [reflexivity | repeat constructor].
  - exists []. split; [by rewrite app_nil_r | constructor].
  - exists [ELoad h; ECheck h q]. split; [reflexivity | repeat constructor].
  - destruct (Promotion_log _ _ _ _ _ HP) as (evs & E & Hc & _). eauto.
  - destruct (Promotion_log _ _ _ _ _ HP) as (evs & E & Hc & _).
    exists ([ELoad h; ECheck h q] ++ evs). split.
    + rewrite E. open_store. by rewrite <- app_assoc.
    + apply Forall_app. split; [repeat constructor | exact Hc].
  - exists (EDownload h <$> srcs). split; [reflexivity|].
    apply Forall_fmap, Forall_true. reflexivity.
  - destruct (Promotion_log _ _ _ _ _ HP) as (evs & E & Hc & _).
    exists ((EDownload h <$> pre ++ [src]) ++ evs). split.
    + rewrite E. open_store. by rewrite <- app_assoc.
    + apply Forall_app. split; [|exact Hc].
      apply Forall_fmap, Forall_true. reflexivity.
Qed.

(** A dispatch for [h] leaves the other protocols alone. *)
Lemma Dispatch_frame h srcs q m m' out k :
  Dispatch h srcs q m (m', out) -> k <> h ->
  PROTOCOL_INFOS m' !! k = PROTOCOL_INFOS m !! k
  /\ ROUTINES m' !! k = ROUTINES m !! k.
Proof.
  intros H Hk. invert_dispatch H; open_store;
    rewrite ?lookup_alter_ne, ?lookup_insert_ne, ?lookup_alter_ne by congruence;
    split; reflexivity.
Qed.

(** The classifier is asked only about a protocol whose stored suitability
    is [UNKNOWN]. *)
Lemma Dispatch_check h srcs q m m' out k q' :
  Dispatch h srcs q m (m', out) ->
  ECheck k q' ∈ calls_since m m' ->
  k = h /\ suitability_of h m = Some UNKNOWN.
Proof.
  intros H Hin.
  assert (Hk : k = h).
  { destruct (Dispatch_log _ _ _ _ _ _ H) as (evs & E & Hc).
    rewrite (calls_since_app _ _ _ E) in Hin.
    rewrite Forall_forall in Hc. exact (Hc _ Hin). }
  split; [exact Hk|]. subst k.
  inversion H as
    [ impl Er | info Er Ei Es | info Er Ei Es Ec | info r Er Ei Es HP
    | info r Er Ei Es Ec HP | Er Ei Hf
    | pre src post doc r Er Ei Hsrcs Hf Hs HP ]; subst; clear H.
  - rewrite (calls_since_app _ _ [EExecute h q]) in Hin by reflexivity.
    apply list_elem_of_singleton in Hin. discriminate.
  - rewrite (calls_since_app _ _ []) in Hin by (by rewrite app_nil_r).
    by apply not_elem_of_nil in Hin.
  - unfold suitability_of. by rewrite Ei; cbn; rewrite Es.
  - destruct (Promotion_log _ _ _ _ _ HP) as (evs & E & _ & Hnc & _).
    rewrite (calls_since_app _ _ _ E) in Hin.
    assert (Hf : ECheck h q' ∈ filter is_any_check evs)
      by (apply list_elem_of_filter; split; [exact I | exact Hin]).
    rewrite Hnc in Hf. by apply not_elem_of_nil in Hf.
  - unfold suitability_of. by rewrite Ei; cbn; rewrite Es.
  - rewrite (calls_since_app _ _ (EDownload h <$> srcs)) in Hin by reflexivity.
    apply list_elem_of_fmap in Hin as (? & ? & ?). discriminate.
  - destruct (Promotion_log _ _ _ _ _ HP) as (evs & E & _ & Hnc & _).
    rewrite (calls_since_app _ _ ((EDownload h <$> pre ++ [src]) ++ evs)) in Hin
      by (rewrite E; open_store; by rewrite <- app_assoc).
    apply elem_of_app in Hin as [Hin | Hin].
    + apply list_elem_of_fmap in Hin as (? & ? & ?). discriminate.
    + assert (Hf' : ECheck h q' ∈ filter is_any_check evs)
        by (apply list_elem_of_filter; split; [exact I | exact Hin]).
      rewrite Hnc in Hf'. by apply not_elem_of_nil in Hf'.
Qed.

(** One dispatch writes the suitability of its protocol at most once, and
    only over [UNKNOWN]. *)
Lemma Dispatch_suitability h srcs q m m' out :
  Dispatch h srcs q m (m', out) ->
  write_once (suitability_of h m) (suitability_of h m').
Proof.
  intros H. unfold write_once, suitability_of.
  invert_dispatch H; open_store;
    rewrite ?lookup_alter_eq, ?lookup_insert_eq, ?lookup_alter_eq, ?Ei;
    cbn; rewrite ?Es; cbn; auto.
Qed.

Lemma Dispatch_count h srcs q m m' out :
  Dispatch h srcs q m (m', out) ->
  count_of h m <= count_of h m' <= count_of h m + 1.
Proof.
  intros H. unfold count_of.
  invert_dispatch H; open_store;
    rewrite ?lookup_alter_eq, ?lookup_insert_eq, ?lookup_alter_eq, ?Ei;
    cbn; lia.
Qed.

Lemma Dispatch_source h srcs q m m' out s :
  Dispatch h srcs q m (m', out) ->
  source_of h m = Some s -> source_of h m' = Some s.
Proof.
  unfold source_of. intros H.
  invert_dispatch H; open_store;
    rewrite ?lookup_alter_eq, ?lookup_insert_eq, ?lookup_alter_eq, ?Ei;
    cbn; try done.
Qed.

Lemma Dispatch_routines h srcs q m m' out k code :
  Dispatch h srcs q m (m', out) ->
  ROUTINES m !! k = Some code -> ROUTINES m' !! k = Some code.
Proof.
  intros H Hk.
  invert_dispatch H; open_store; try assumption;
    (destruct (decide (k = h)) as [->|Hne];
     [congruence | by rewrite lookup_insert_ne]).
Qed.

Lemma Dispatch_nonneg h srcs q m m' out :
  Dispatch h srcs q m (m', out) -> counts_nonneg m -> counts_nonneg m'.
Proof.
  intros H Hm k info' Hk.
  destruct (decide (k = h)) as [->|Hne].
  - pose proof (Dispatch_count _ _ _ _ _ _ H) as Hc.
    unfold count_of in Hc. rewrite Hk in Hc.
    destruct (PROTOCOL_INFOS m !! h) as [info|] eqn:Ei; [|lia].
    specialize (Hm _ _ Ei). lia.
  - destruct (Dispatch_frame _ _ _ _ _ _ k H Hne) as [E _].
    rewrite E in Hk. exact (Hm _ _ Hk).
Qed.

(** *** Whole requests *)

Lemma main_cases data m :
  (protocolHash data = None
   /\ main data m
      = (log (EReply (body data) None) m, Return (Reply (respond (body data) None))))
  \/ (exists h, protocolHash data = Some h
       /\ Dispatch h (protocolSources data) (body data) m (main data m)).
Proof.
  unfold main. destruct (protocolHash data) as [h|].
  - right. exists h. split; [reflexivity | apply handle_query_Dispatch].
  - left. split; reflexivity.
Qed.

Lemma main_log data m :
  exists evs, LOG (main data m).1 = LOG m ++ evs.
Proof.
  destruct (main_cases data m) as [[_ E] | (h & _ & H)].
  - rewrite E. by exists [EReply (body data) None].
  - destruct (main data m) as [m' out].
    destruct (Dispatch_log _ _ _ _ _ _ H) as (evs & E & _). eauto.
Qed.

Lemma main_frame data m k :
  protocolHash data <> Some k ->
  PROTOCOL_INFOS (main data m).1 !! k = PROTOCOL_INFOS m !! k
  /\ ROUTINES (main data m).1 !! k = ROUTINES m !! k.
Proof.
  intros Hk. destruct (main_cases data m) as [[_ E] | (h & Eh & H)].
  - rewrite E. split; reflexivity.
  - destruct (main data m) as [m' out].
    apply (Dispatch_frame _ _ _ _ _ _ k H). congruence.
Qed.

Lemma main_suitability data m k :
  write_once (suitability_of k m) (suitability_of k (main data m).1).
Proof.
  destruct (decide (protocolHash data = Some k)) as [Ek|Hk].
  - destruct (main_cases data m) as [[E _] | (h & Eh & H)]; [congruence|].
    assert (h = k) as -> by congruence.
    destruct (main data m) as [m' out]. exact (Dispatch_suitability _ _ _ _ _ _ H).
  - left. unfold suitability_of. by destruct (main_frame data m k Hk) as [-> _].
Qed.

Lemma main_count data m k :
  count_of k m <= count_of k (main data m).1 <= count_of k m + 1.
Proof.
  destruct (decide (protocolHash data = Some k)) as [Ek|Hk].
  - destruct (main_cases data m) as [[E _] | (h & Eh & H)]; [congruence|].
    assert (h = k) as -> by congruence.
    destruct (main data m) as [m' out]. exact (Dispatch_count _ _ _ _ _ _ H).
  - unfold count_of. destruct (main_frame data m k Hk) as [-> _]. lia.
Qed.

Lemma main_nonneg data m : counts_nonneg m -> counts_nonneg (main data m).1.
Proof.
  intros Hm. destruct (main_cases data m) as [[_ E] | (h & Eh & H)].
  - rewrite E. exact Hm.
  - destruct (main data m) as [m' out]. exact (Dispatch_nonneg _ _ _ _ _ _ H Hm).
Qed.

Lemma main_check data m k q' :
  ECheck k q' ∈ calls_since m (main data m).1 ->
  protocolHash data = Some k /\ suitability_of k m = Some UNKNOWN.
Proof.
  intros Hin. destruct (main_cases data m) as [[_ E] | (h & Eh & H)].
  - rewrite E in Hin.
    rewrite (calls_since_app _ _ [EReply (body data) None]) in Hin by reflexivity.
    apply list_elem_of_singleton in Hin. discriminate.
  - destruct (main data m) as [m' out].
    destruct (Dispatch_check _ _ _ _ _ _ _ _ H Hin) as [-> Hs]. by split.
Qed.

Lemma serve_cons data rest m :
  serve (data :: rest) m
  = ((serve rest (main data m).1).1, (main data m).2 :: (serve rest (main data m).1).2).
Proof.
  cbn [serve]. destruct (main data m) as [m1 out].
  cbn [fst snd]. by destruct (serve rest m1).
Qed.

End Effects.


(** *** Sequences of requests *)

Section Runs.
Context `{Collab : Collaborators}.

Lemma filter_none {A} (P : A -> bool) (l : list A) :
  (forall x, x ∈ l -> P x = false) -> filter P l = [].
Proof.
  induction l as [|x l IH]; intros H; [reflexivity|].
  rewrite filter_cons_False.
  - apply IH. intros y Hy. apply H. by right.
  - rewrite (H x) by left. cbn. tauto.
Qed.

Lemma calls_since_refl m : calls_since m m = [].
Proof. apply calls_since_app. by rewrite app_nil_r. Qed.

Lemma calls_since_trans m m1 m2 evs1 evs2 :
  LOG m1 = LOG m ++ evs1 -> LOG m2 = LOG m1 ++ evs2 ->
  calls_since m m2 = calls_since m m1 ++ calls_since m1 m2.
Proof.
  intros E1 E2.
  rewrite (calls_since_app m m1 evs1 E1), (calls_since_app m1 m2 evs2 E2).
  apply calls_since_app. rewrite E2, E1. by rewrite <- app_assoc.
Qed.

Lemma serve_log requests m :
  exists evs, LOG (serve requests m).1 = LOG m ++ evs.
Proof.
  revert m. induction requests as [|data rest IH]; intros m.
  - exists []. cbn. by rewrite app_nil_r.
  - rewrite serve_cons. cbn [fst].
    destruct (main_log data m) as (evs1 & E1).
    destruct (IH (main data m).1) as (evs2 & E2).
    exists (evs1 ++ evs2). rewrite E2, E1. by rewrite <- app_assoc.
Qed.

Lemma serve_calls data rest m :
  calls_since m (serve (data :: rest) m).1
  = calls_since m (main data m).1
    ++ calls_since (main data m).1 (serve rest (main data m).1).1.
Proof.
  rewrite serve_cons. cbn [fst].
  destruct (main_log data m) as (evs1 & E1).
  destruct (serve_log rest (main data m).1) as (evs2 & E2).
  by apply (calls_since_trans _ _ _ evs1 evs2).
Qed.

(** A protocol that is INADEQUATE and has no routine stays so through any
    request, is not checked again, and a request for it is refused. *)
Lemma inadequate_step h data m :
  suitability_of h m = Some INADEQUATE -> ROUTINES m !! h = None ->
  suitability_of h (main data m).1 = Some INADEQUATE
  /\ ROUTINES (main data m).1 !! h = None
  /\ filter (is_check h) (calls_since m (main data m).1) = []
  /\ (protocolHash data = Some h -> (main data m).2 = Return not_suitable).
Proof.
  intros Hs Er.
  destruct (decide (protocolHash data = Some h)) as [Eh|Hne].
  - unfold suitability_of in Hs.
    destruct (PROTOCOL_INFOS m !! h) as [info|] eqn:Ei; [|discriminate].
    injection Hs as Hs.
    unfold main. rewrite Eh, (handle_query_inadequate h _ _ m info Er Ei Hs).
    cbn [fst snd]. rewrite calls_since_refl.
    unfold suitability_of. rewrite Ei. cbn. by rewrite Hs.
  - destruct (main_frame data m h Hne) as [Ei Er'].
    unfold suitability_of in *. rewrite Ei, Er'. repeat split; try assumption.
    + apply filter_none. intros e He. destruct e; try reflexivity.
      cbn. apply bool_decide_eq_false. intros ->.
      by destruct (main_check data m h query He).
    + intros Eh. contradiction.
Qed.

Lemma inadequate_run h requests m :
  suitability_of h m = Some INADEQUATE -> ROUTINES m !! h = None ->
  suitability_of h (serve requests m).1 = Some INADEQUATE
  /\ ROUTINES (serve requests m).1 !! h = None
  /\ filter (is_check h) (calls_since m (serve requests m).1) = []
  /\ forall i data, requests !! i = Some data -> protocolHash data = Some h ->
       (serve requests m).2 !! i = Some (Return not_suitable).
Proof.
  revert m. induction requests as [|data rest IH]; intros m Hs Er.
  - cbn [serve fst snd]. rewrite calls_since_refl. repeat split; try assumption.
    intros i data Hi. by rewrite lookup_nil in Hi.
  - destruct (inadequate_step h data m Hs Er) as (Hs1 & Er1 & Hc1 & Ho1).
    destruct (IH _ Hs1 Er1) as (Hs2 & Er2 & Hc2 & Ho2).
    rewrite serve_calls, filter_app, Hc1, Hc2.
    rewrite serve_cons. cbn [fst snd]. repeat split; try assumption.
    intros [|i] d Hi Hd.
    + cbn in Hi. injection Hi as <-. cbn. by rewrite (Ho1 Hd).
    + cbn in Hi. cbn. by apply (Ho2 i d).
Qed.

Lemma terminal_run requests m h s :
  suitability_of h m = Some s -> s <> UNKNOWN ->
  suitability_of h (serve requests m).1 = Some s.
Proof.
  revert m. induction requests as [|data rest IH]; intros m Hs Hne; [exact Hs|].
  rewrite serve_cons. cbn [fst]. apply IH; [|exact Hne].
  destruct (main_suitability data m h) as [E | [[E _] | [E _]]];
    rewrite Hs in E; congruence.
Qed.

Lemma trajectory_head requests m :
  exists rest, trajectory requests m = m :: rest.
Proof. destruct requests; cbn; eauto. Qed.

Lemma suitability_changes_cons h a b rest :
  suitability_changes h (a :: b :: rest)
  = ((if bool_decide (is_Some (suitability_of h a)
                      /\ suitability_of h a <> suitability_of h b)
      then 1 else 0) + suitability_changes h (b :: rest))%nat.
Proof. reflexivity. Qed.

Lemma terminal_no_change requests m h s :
  suitability_of h m = Some s -> s <> UNKNOWN ->
  suitability_changes h (trajectory requests m) = 0%nat.
Proof.
  revert m. induction requests as [|data rest IH]; intros m Hs Hne; [reflexivity|].
  assert (Hs1 : suitability_of h (main data m).1 = Some s).
  { destruct (main_suitability data m h) as [E | [[E _] | [E _]]];
      rewrite Hs in E; congruence. }
  cbn [trajectory]. destruct (trajectory_head rest (main data m).1) as (tl & Et).
  rewrite Et, suitability_changes_cons, <- Et, (IH _ Hs1 Hne).
  rewrite bool_decide_false; [reflexivity|].
  intros [_ Hd]. rewrite Hs, Hs1 in Hd. congruence.
Qed.

Lemma at_most_one_change requests m h :
  (suitability_changes h (trajectory requests m) <= 1)%nat.
Proof.
  revert m. induction requests as [|data rest IH]; intros m; [cbn; lia|].
  cbn [trajectory]. destruct (trajectory_head rest (main data m).1) as (tl & Et).
  rewrite Et, suitability_changes_cons, <- Et.
  case_bool_decide as Hd; [|specialize (IH (main data m).1); lia].
  destruct Hd as [[s Hs] Hd].
  destruct (main_suitability data m h) as [E | [[E _] | [E Ht]]];
    [congruence | congruence |].
  assert (exists t, suitability_of h (main data m).1 = Some t /\ t <> UNKNOWN)
    as (t & Ht1 & Ht2)
    by (destruct Ht as [Ht|Ht]; rewrite Ht; eexists; split; eauto; discriminate).
  rewrite (terminal_no_change rest _ h t Ht1 Ht2). lia.
Qed.

Lemma count_run requests m k : count_of k m <= count_of k (serve requests m).1.
Proof.
  revert m. induction requests as [|data rest IH]; intros m; [cbn; lia|].
  rewrite serve_cons. cbn [fst].
  pose proof (main_count data m k). specialize (IH (main data m).1). lia.
Qed.

Lemma nonneg_run requests m :
  counts_nonneg m -> counts_nonneg (serve requests m).1.
Proof.
  revert m. induction requests as [|data rest IH]; intros m Hm; [exact Hm|].
  rewrite serve_cons. cbn [fst]. apply IH. by apply main_nonneg.
Qed.

(** With counts that are not negative, a promotion does not ask the
    responder. *)
Lemma Promotion_no_reply h q m m' out :
  Promotion h q m (m', out) ->
  (forall info, PROTOCOL_INFOS m !! h = Some info -> 0 <= num_conversations info) ->
  exists evs, LOG m' = LOG m ++ evs /\ filter is_reply evs = []
    /\ EWrite h ∈ evs.
Proof.
  intros H Hn. invert_promotion H; open_store.
  - exists [ELoad h; EWrite h]. repeat split. set_solver.
  - exists [ELoad h; EWrite h; EExecute h q]. rewrite <- app_assoc.
    repeat split. set_solver.
  - specialize (Hn _ Pi). unfold NUM_CONVERSATIONS_FOR_ROUTINE in Pn. lia.
Qed.

Lemma Dispatch_no_reply h srcs q m m' out :
  Dispatch h srcs q m (m', out) -> counts_nonneg m ->
  filter is_reply (calls_since m m') = [].
Proof.
  intros H Hm.
  inversion H as
    [ impl Er | info Er Ei Es | info Er Ei Es Ec | info r Er Ei Es HP
    | info r Er Ei Es Ec HP | Er Ei Hf
    | pre src post doc r Er Ei Hsrcs Hf Hs HP ]; subst; clear H.
  - by rewrite (calls_since_app _ _ [EExecute h q]).
  - by rewrite calls_since_refl.
  - by rewrite (calls_since_app _ _ [ELoad h; ECheck h q]).
  - destruct (Promotion_no_reply _ _ _ _ _ HP) as (evs & E & Hr & _).
    { intros i Hi. exact (Hm _ _ Hi). }
    by rewrite (calls_since_app _ _ _ E).
  - destruct (Promotion_no_reply _ _ _ _ _ HP) as (evs & E & Hr & _).
    { intros i. open_store. rewrite lookup_alter_eq, Ei. cbn.
      intros [= <-]. cbn. exact (Hm _ _ Ei). }
    rewrite (calls_since_app _ _ ([ELoad h; ECheck h q] ++ evs))
      by (rewrite E; open_store; by rewrite <- app_assoc).
    by rewrite filter_app, Hr.
  - rewrite (calls_since_app _ _ (EDownload h <$> srcs)) by reflexivity.
    apply filter_none. intros e He.
    apply list_elem_of_fmap in He as (? & -> & _). reflexivity.
  - destruct (Promotion_no_reply _ _ _ _ _ HP) as (evs & E & Hr & _).
    { intros i. open_store. rewrite lookup_insert_eq. intros [= <-]. cbn. lia. }
    rewrite (calls_since_app _ _ ((EDownload h <$> pre ++ [src]) ++ evs))
      by (rewrite E; open_store; by rewrite <- app_assoc).
    rewrite filter_app, Hr, app_nil_r.
    apply filter_none. intros e He.
    apply list_elem_of_fmap in He as (? & -> & _). reflexivity.
Qed.

End Runs.

(** *** The claims about the server variant *)

Lemma downloads_are_downloads h (l : list string) :
  filter is_download (EDownload h <$> l) = EDownload h <$> l.
Proof.
  induction l as [|x l IH]; [reflexivity|].
  cbn [fmap list_fmap]. rewrite filter_cons_True by done.
  f_equal. exact IH.
Qed.

Lemma downloads_are_not_checks h (l : list string) :
  filter is_any_check (EDownload h <$> l) = [].
Proof.
  induction l as [|x l IH]; [reflexivity|].
  cbn [fmap list_fmap]. rewrite filter_cons_False by (cbn; tauto). exact IH.
Qed.

Section Claims.
Context `{Collab : Collaborators}.

(** C1. A query for a registered protocol whose suitability is ADEQUATE and
    that the routine-cache fast path does not answer is handled by
    [handle_query_suitable], which first increments the conversation count
    ([counted]) and then: executes the routine if one exists; otherwise, when
    the incremented count is at least the promotion threshold, calls the
    programmer, stores the routine it returns and executes it on the same
    query; otherwise asks the responder with the protocol identifier as
    context. *)
Theorem C1_adequate_path h q m info :
  PROTOCOL_INFOS m !! h = Some info ->
  (suitability info = ADEQUATE -> ROUTINES m !! h = None ->
     forall srcs, handle_query (Some h) srcs q m = handle_query_suitable h q m)
  /\ count_of h (counted h m) = num_conversations info + 1
  /\ (forall impl, ROUTINES m !! h = Some impl ->
        handle_query_suitable h q m
        = (log (EExecute h q) (counted h m), Return (execution_result impl q)))
  /\ (ROUTINES m !! h = None ->
      num_conversations info + 1 >= NUM_CONVERSATIONS_FOR_ROUTINE ->
      forall impl, synthesize_routine [] (stored_document h) = Some impl ->
        handle_query_suitable h q m
        = (log (EExecute h q)
             (with_routines <[h := impl]> (logs [ELoad h; EWrite h] (counted h m))),
           Return (execution_result impl q)))
  /\ (ROUTINES m !! h = None ->
      num_conversations info + 1 < NUM_CONVERSATIONS_FOR_ROUTINE ->
        handle_query_suitable h q m
        = (log (EReply q (Some h)) (counted h m),
           Return (Reply (respond q (Some h))))).
Proof.
  intros Ei. repeat split.
  - intros Es Er srcs. exact (handle_query_adequate h srcs q m info Er Ei Es).
  - unfold count_of, counted, with_infos. st. by rewrite lookup_alter_eq, Ei.
  - intros impl Er.
    rewrite (handle_query_suitable_cached h q m impl Er).
    by apply call_implementation_cached.
  - intros Er Hn impl Es.
    rewrite (handle_query_suitable_promote h q m info Ei Er) by lia.
    by rewrite Es.
  - intros Er Hn. exact (handle_query_suitable_delegate h q m info Ei Er Hn).
Qed.

(** C5. Executing a routine never raises out of [call_implementation]: when
    the routine fails, the result is the error dictionary, the only call made
    is the execution itself, and the responder is not asked; so it is for a
    query that [handle_query] answers from the routine cache. *)
Theorem C5_execution_failure_is_caught h q m :
  (forall impl, ROUTINES m !! h = Some impl -> run_implementation impl q = None) ->
  call_implementation h q m
  = (log (EExecute h q) m, Return (StatusMessage "error" "Failed to execute routine."))
  /\ (is_Some (ROUTINES m !! h) ->
      forall srcs,
        handle_query (Some h) srcs q m
        = (log (EExecute h q) m,
           Return (StatusMessage "error" "Failed to execute routine."))
        /\ filter is_reply (calls_since m (handle_query (Some h) srcs q m).1) = []).
Proof.
  intros Hfail.
  assert (E : call_implementation h q m
    = (log (EExecute h q) m,
       Return (StatusMessage "error" "Failed to execute routine."))).
  { destruct (ROUTINES m !! h) as [impl|] eqn:Er.
    - rewrite (call_implementation_cached h q m impl Er).
      unfold execution_result. by rewrite (Hfail impl eq_refl).
    - by apply call_implementation_missing. }
  split; [exact E|].
  intros [impl Er] srcs.
  rewrite (handle_query_cached h srcs q m impl Er), E. split; [reflexivity|].
  cbn [fst]. by rewrite (calls_since_app _ _ [EExecute h q]).
Qed.

(** C6. A query for a protocol that has no routine and is not registered,
    with sources none of which yields a document (an empty list included),
    is answered by the no-valid-source error; every source has been tried, in
    order, and neither the registry nor the routines have changed. *)
Theorem C6_no_valid_source h srcs q m :
  ROUTINES m !! h = None -> PROTOCOL_INFOS m !! h = None ->
  Forall (fails h) srcs ->
  handle_query (Some h) srcs q m
  = (logs (EDownload h <$> srcs) m, Return no_valid_source)
  /\ PROTOCOL_INFOS (handle_query (Some h) srcs q m).1 = PROTOCOL_INFOS m
  /\ ROUTINES (handle_query (Some h) srcs q m).1 = ROUTINES m.
Proof.
  intros Er Ei Hf.
  rewrite (handle_query_unregistered h srcs q m Er Ei), (try_sources_none h srcs q m Hf).
  repeat split.
Qed.

(** C3. A query for a protocol that has no routine and is not registered,
    with sources of which [src] is the first to yield a document: the sources
    are downloaded in order up to [src] and no further, the protocol is
    registered with [src], and the query is handled by
    [handle_query_suitable] on that store; the checker is not called, and the
    registered source is still [src] when the request is done. *)
Theorem C3_first_valid_source h pre src post doc q m :
  ROUTINES m !! h = None -> PROTOCOL_INFOS m !! h = None ->
  Forall (fails h) pre -> fetch_and_verify h src = Some doc ->
  let srcs := pre ++ src :: post in
  let m' := (handle_query (Some h) srcs q m).1 in
  handle_query (Some h) srcs q m
  = handle_query_suitable h q
      (registered h src (logs (EDownload h <$> pre ++ [src]) m))
  /\ filter is_download (calls_since m m') = EDownload h <$> pre ++ [src]
  /\ filter is_any_check (calls_since m m') = []
  /\ source_of h m' = Some src
  /\ count_of h m' = 1.
Proof.
  intros Er Ei Hf Hs srcs m'.
  assert (E : handle_query (Some h) srcs q m
    = handle_query_suitable h q
        (registered h src (logs (EDownload h <$> pre ++ [src]) m))).
  { unfold srcs. rewrite (handle_query_unregistered h _ q m Er Ei).
    by apply (try_sources_first h pre src post doc). }
  split; [exact E|].
  set (m1 := registered h src (logs (EDownload h <$> pre ++ [src]) m)) in *.
  assert (HP : Promotion h q m1 (handle_query_suitable h q m1)).
  { eapply handle_query_suitable_Promotion; [|exact Er].
    unfold m1, registered, with_infos, logs. st. apply lookup_insert_eq. }
  unfold m'. rewrite E. destruct (handle_query_suitable h q m1) as [m2 out].
  cbn [fst].
  destruct (Promotion_log _ _ _ _ _ HP) as (evs & El & _ & Hnc & Hnd).
  assert (Ec : calls_since m m2 = (EDownload h <$> pre ++ [src]) ++ evs).
  { apply calls_since_app. rewrite El. unfold m1. open_store. by rewrite <- app_assoc. }
  rewrite Ec, !filter_app, Hnc, Hnd, !app_nil_r.
  unfold source_of, count_of. rewrite (Promotion_infos _ _ _ _ _ HP).
  unfold m1. open_store.
  rewrite lookup_alter_eq, lookup_insert_eq. cbn.
  rewrite downloads_are_downloads, downloads_are_not_checks.
  repeat split.
Qed.

(** C2. A protocol stored as INADEQUATE and without a routine: every query
    for it is refused with the not-suitable error whatever the query and the
    sources, and this stays so through any sequence of requests, none of
    which calls the checker for it.  In any store, the checker is called
    for a protocol only when its stored suitability is UNKNOWN. *)
Theorem C2_inadequate_is_final h m info :
  PROTOCOL_INFOS m !! h = Some info -> suitability info = INADEQUATE ->
  ROUTINES m !! h = None ->
  (forall srcs q, handle_query (Some h) srcs q m = (m, Return not_suitable))
  /\ (forall requests,
        suitability_of h (serve requests m).1 = Some INADEQUATE
        /\ ROUTINES (serve requests m).1 !! h = None
        /\ filter (is_check h) (calls_since m (serve requests m).1) = []
        /\ forall i data, requests !! i = Some data -> protocolHash data = Some h ->
             (serve requests m).2 !! i = Some (Return not_suitable))
  /\ (forall data m0 k q,
        ECheck k q ∈ calls_since m0 (main data m0).1 ->
        protocolHash data = Some k /\ suitability_of k m0 = Some UNKNOWN).
Proof.
  intros Ei Es Er. split; [|split].
  - intros srcs q. exact (handle_query_inadequate h srcs q m info Er Ei Es).
  - intros requests. apply inadequate_run; [|exact Er].
    unfold suitability_of. by rewrite Ei; cbn; rewrite Es.
  - intros data m0 k q. apply main_check.
Qed.

(** C4, as the code has it.  A query for a registered protocol stored as
    ADEQUATE and without a routine increments its conversation count exactly
    once; no request decreases a count or increments it more than once, and
    no sequence of requests decreases it; a query answered from the routine
    cache leaves the registry, and so every count, as it was. *)
Theorem C4_count_increments h q m info :
  PROTOCOL_INFOS m !! h = Some info ->
  (suitability info = ADEQUATE -> ROUTINES m !! h = None ->
     forall srcs,
       count_of h (handle_query (Some h) srcs q m).1 = num_conversations info + 1)
  /\ (is_Some (ROUTINES m !! h) ->
      forall srcs, PROTOCOL_INFOS (handle_query (Some h) srcs q m).1 = PROTOCOL_INFOS m)
  /\ (forall data k, count_of k m <= count_of k (main data m).1 <= count_of k m + 1)
  /\ (forall requests k, count_of k m <= count_of k (serve requests m).1).
Proof.
  intros Ei. split; [|split; [|split]].
  - intros Es Er srcs.
    rewrite (handle_query_adequate h srcs q m info Er Ei Es).
    pose proof (handle_query_suitable_Promotion h q m info Ei Er) as HP.
    destruct (handle_query_suitable h q m) as [m' out]. cbn [fst].
    unfold count_of. rewrite (Promotion_infos _ _ _ _ _ HP).
    by rewrite lookup_alter_eq, Ei.
  - intros [impl Er] srcs.
    by rewrite (handle_query_cached h srcs q m impl Er),
      (call_implementation_cached h q m impl Er).
  - intros data k. apply main_count.
  - intros requests k. apply count_run.
Qed.

(** C7. Registration stores the suitability UNKNOWN; one request changes the
    suitability of a protocol only by registering it as UNKNOWN or by writing
    ADEQUATE or INADEQUATE over UNKNOWN; a suitability that is ADEQUATE or
    INADEQUATE is the same after any sequence of requests; and along any
    sequence of requests the suitability of a registered protocol changes at
    most once. *)
Theorem C7_suitability_write_once :
  (forall h src doc m,
     PROTOCOL_INFOS m !! h = None ->
     (register_new_protocol h src doc m).2 = Return tt
     /\ suitability_of h (register_new_protocol h src doc m).1 = Some UNKNOWN)
  /\ (forall data m h,
        write_once (suitability_of h m) (suitability_of h (main data m).1))
  /\ (forall requests m h s,
        suitability_of h m = Some s -> s <> UNKNOWN ->
        suitability_of h (serve requests m).1 = Some s)
  /\ (forall requests m h,
        (suitability_changes h (trajectory requests m) <= 1)%nat).
Proof.
  split; [|split; [|split]].
  - intros h src doc m Ei.
    unfold register_new_protocol, bind, gets, modify, raise. rewrite Ei.
    cbn [fst snd]. split; [reflexivity|].
    unfold suitability_of, with_infos. st. by rewrite lookup_insert_eq.
  - intros data m h. apply main_suitability.
  - intros requests m h s. apply terminal_run.
  - intros requests m h. apply at_most_one_change.
Qed.

(** C10. Conversation counts are never negative: not in the empty store and
    not after any sequence of requests.  In such a store, the first query
    handled by [handle_query_suitable] for a registered protocol without a
    routine calls the programmer and, given the routine it returns, stores and
    executes it on that query; the responder is not asked, and no request
    whatsoever asks the responder with a protocol identifier as context. *)
Theorem C10_threshold_always_met :
  NUM_CONVERSATIONS_FOR_ROUTINE = -1
  /\ (forall requests, counts_nonneg (serve requests empty_memory).1)
  /\ (forall m h q info,
        counts_nonneg m -> PROTOCOL_INFOS m !! h = Some info ->
        ROUTINES m !! h = None ->
        EWrite h ∈ calls_since m (handle_query_suitable h q m).1
        /\ filter is_reply (calls_since m (handle_query_suitable h q m).1) = []
        /\ forall impl, synthesize_routine [] (stored_document h) = Some impl ->
             handle_query_suitable h q m
             = (log (EExecute h q) (with_routines <[h := impl]> (synthesized h m)),
                Return (execution_result impl q)))
  /\ (forall data m,
        counts_nonneg m ->
        filter is_reply_in_context (calls_since m (main data m).1) = []).
Proof.
  split; [reflexivity|]. split; [|split].
  - intros requests. apply nonneg_run. intros h info Hi.
    unfold empty_memory in Hi. cbn [PROTOCOL_INFOS] in Hi.
    by rewrite lookup_empty in Hi.
  - intros m h q info Hm Ei Er.
    pose proof (handle_query_suitable_Promotion h q m info Ei Er) as HP.
    assert (Hn : NUM_CONVERSATIONS_FOR_ROUTINE <= num_conversations info + 1)
      by (specialize (Hm _ _ Ei); unfold NUM_CONVERSATIONS_FOR_ROUTINE; lia).
    destruct (handle_query_suitable h q m) as [m' out] eqn:E. cbn [fst].
    destruct (Promotion_no_reply _ _ _ _ _ HP) as (evs & El & Hr & Hw).
    { intros i Hi. exact (Hm _ _ Hi). }
    rewrite (calls_since_app _ _ _ El). repeat split; try assumption.
    intros impl Es. rewrite <- E.
    rewrite (handle_query_suitable_promote h q m info Ei Er Hn). by rewrite Es.
  - intros data m Hm.
    destruct (main_cases data m) as [[_ E] | (h & Eh & H)].
    + rewrite E. cbn [fst].
      by rewrite (calls_since_app _ _ [EReply (body data) None]).
    + destruct (main data m) as [m' out]. cbn [fst].
      pose proof (Dispatch_no_reply _ _ _ _ _ _ H Hm) as Hr.
      apply filter_none. intros e He.
      destruct e as [q' [c|]| | | | |]; try reflexivity.
      exfalso. eapply (filter_nil_not_elem_of _ _ _ Hr); [|exact He]. done.
Qed.

End Claims.

(** *** Worked examples *)

(** C1 at a store where [P1] is ADEQUATE with count 0 and no routine. *)
Lemma C1_adequate_path_witness :
  let C := example_collaborators true true true in
  let m := example_memory ADEQUATE 0 false in
  @handle_query C (Some "P1") ["S1"] "hi" m = @handle_query_suitable C "P1" "hi" m
  /\ @handle_query_suitable C "P1" "hi" m
     = (log (EExecute "P1" "hi")
          (with_routines <["P1" := "routine for document of P1"]>
             (logs [ELoad "P1"; EWrite "P1"] (counted "P1" m))),
        Return (StatusMessage "success" "output for hi")).
Proof.
  intros C m.
  destruct (@C1_adequate_path C "P1" "hi" m (mkInfo "S1" ADEQUATE 0) eq_refl)
    as (Hq & _ & _ & Hp & _).
  split.
  - apply Hq; reflexivity.
  - apply Hp; [reflexivity | vm_compute; discriminate | reflexivity].
Defined.

(** C2 at a store where [P1] is INADEQUATE and has no routine. *)
Lemma C2_inadequate_is_final_witness :
  let C := example_collaborators true true true in
  let m := example_memory INADEQUATE 0 false in
  @handle_query C (Some "P1") ["S1"] "anything" m = (m, Return not_suitable).
Proof.
  intros C m.
  exact (proj1 (@C2_inadequate_is_final C "P1" m (mkInfo "S1" INADEQUATE 0)
                  eq_refl eq_refl eq_refl) ["S1"] "anything").
Defined.

(** C3 with the sources [S0], which fails, then [S1] and [S2], which would
    both validate. *)
Lemma C3_first_valid_source_witness :
  let C := example_collaborators true true true in
  let m' := (@handle_query C (Some "P2") ["S0"; "S1"; "S2"] "hi" empty_memory).1 in
  filter is_download (calls_since empty_memory m')
  = [EDownload "P2" "S0"; EDownload "P2" "S1"]
  /\ source_of "P2" m' = Some "S1".
Proof.
  intros C m'.
  destruct (@C3_first_valid_source C "P2" ["S0"] "S1" ["S2"] "document at S1" "hi"
              empty_memory eq_refl eq_refl)
    as (_ & Hd & _ & Hs & _).
  - repeat constructor.
  - reflexivity.
  - split; [exact Hd | exact Hs].
Defined.

(** C4 at a store where [P1] is ADEQUATE with count 3 and no routine. *)
Lemma C4_count_increments_witness :
  let C := example_collaborators true true true in
  let m := example_memory ADEQUATE 3 false in
  count_of "P1" (@handle_query C (Some "P1") [] "hi" m).1 = 3 + 1.
Proof.
  intros C m.
  exact (proj1 (@C4_count_increments C "P1" "hi" m (mkInfo "S1" ADEQUATE 3) eq_refl)
           eq_refl eq_refl []).
Defined.

(** C4 as it was claimed fails on a cached routine: [P1] is ADEQUATE and has
    a routine, the query is answered by the routine, and the count stays 3. *)
Lemma C4_counterexample :
  let C := example_collaborators true true true in
  let m := example_memory ADEQUATE 3 true in
  suitability_of "P1" m = Some ADEQUATE
  /\ ROUTINES m !! "P1" = Some "routine"
  /\ (@handle_query C (Some "P1") [] "hi" m).2
     = Return (StatusMessage "success" "output for hi")
  /\ count_of "P1" (@handle_query C (Some "P1") [] "hi" m).1 = 3
  /\ count_of "P1" (@handle_query C (Some "P1") [] "hi" m).1 <> count_of "P1" m + 1.
Proof.
  intros C m.
  assert (E : @handle_query C (Some "P1") [] "hi" m
              = (log (EExecute "P1" "hi") m,
                 Return (StatusMessage "success" "output for hi"))).
  { rewrite (@handle_query_cached C "P1" [] "hi" m "routine" eq_refl).
    exact (@call_implementation_cached C "P1" "hi" m "routine" eq_refl). }
  rewrite E. repeat split. vm_compute. discriminate.
Qed.

(** C5 with a runner that fails. *)
Lemma C5_execution_failure_is_caught_witness :
  let C := example_collaborators true true false in
  let m := example_memory ADEQUATE 0 true in
  @handle_query C (Some "P1") [] "hi" m
  = (log (EExecute "P1" "hi") m,
     Return (StatusMessage "error" "Failed to execute routine.")).
Proof.
  intros C m.
  refine (proj1 (proj2 (@C5_execution_failure_is_caught C "P1" "hi" m _) _ [])).
  - intros impl _. reflexivity.
  - exists "routine". reflexivity.
Defined.

(** C6 with two sources that both fail. *)
Lemma C6_no_valid_source_witness :
  let C := example_collaborators true true true in
  @handle_query C (Some "P2") ["S0"; "S3"] "hi" empty_memory
  = (logs [EDownload "P2" "S0"; EDownload "P2" "S3"] empty_memory,
     Return no_valid_source).
Proof.
  intros C.
  refine (proj1 (@C6_no_valid_source C "P2" ["S0"; "S3"] "hi" empty_memory
                   eq_refl eq_refl _)).
  repeat constructor.
Defined.

(** C7 with [P1] stored as ADEQUATE, through three requests. *)
Lemma C7_suitability_write_once_witness :
  let C := example_collaborators false true true in
  let m := example_memory ADEQUATE 0 false in
  let requests := [mkRequest (Some "P1") [] "a"; mkRequest None [] "b";
                   mkRequest (Some "P1") ["S1"] "c"] in
  suitability_of "P1" (@serve C requests m).1 = Some ADEQUATE.
Proof.
  intros C m requests.
  refine (proj1 (proj2 (proj2 (@C7_suitability_write_once C)))
            requests m "P1" ADEQUATE eq_refl _).
  discriminate.
Defined.

(** C10 at a store where [P1] is registered with count 0 and no routine. *)
Lemma C10_threshold_always_met_witness :
  let C := example_collaborators true true true in
  let m := example_memory ADEQUATE 0 false in
  EWrite "P1" ∈ calls_since m (@handle_query_suitable C "P1" "hi" m).1
  /\ filter is_reply (calls_since m (@handle_query_suitable C "P1" "hi" m).1) = [].
Proof.
  intros C m.
  destruct (proj1 (proj2 (proj2 (@C10_threshold_always_met C)))
              m "P1" "hi" (mkInfo "S1" ADEQUATE 0)) as (Hw & Hr & _).
  - intros h info Hi. unfold m, example_memory in Hi. cbn [PROTOCOL_INFOS] in Hi.
    apply lookup_singleton_Some in Hi as [_ <-]. simpl. lia.
  - reflexivity.
  - reflexivity.
  - split; [exact Hw | exact Hr].
Defined.

End ServerProofs.

(** ** The gateway variant: what [main] does *)

Module GatewayProofs.
Import Gateway.

Ltac gw := cbn [HASH_COUNTER KNOWN LOG].

Ltac run_gateway :=
  unfold main, post_model_handler, get_routines, post_call, create_and_save_routine,
    counter_at, count_call, bind, modify, gets, ret, raise, counted, with_counter,
    with_known, log;
  gw.

Section Paths.
Context `{Serv : Services}.

Lemma main_no_hash data s :
  protocolHash data = None ->
  main data s = (log (EModel data) s, Return (model_handler data)).
Proof. intros E. unfold main. by rewrite E. Qed.

Lemma main_known data h s :
  protocolHash data = Some h -> h ∈ KNOWN s ->
  main data s = (log (ECall data) (log ERoutines s), Return (routine_manager data)).
Proof.
  intros E Hk. run_gateway. rewrite E. gw.
  by rewrite bool_decide_true by exact Hk.
Qed.

(** The sentinel is not counted, and the lookup that follows raises. *)
Lemma main_chat data s :
  protocolHash data = Some "chat" -> "chat" ∉ KNOWN s ->
  HASH_COUNTER s !! "chat" = None ->
  main data s = (log ERoutines s, Raise (KeyError "chat")).
Proof.
  intros E Hk Hc. run_gateway. rewrite E. gw.
  rewrite bool_decide_false by exact Hk.
  rewrite bool_decide_false by (intros H; by apply H).
  gw. by rewrite Hc.
Qed.

Lemma main_below_threshold data h s :
  protocolHash data = Some h -> h ∉ KNOWN s -> h <> "chat" ->
  default 0 (HASH_COUNTER s !! h) + 1 < TRIGGER_NUM_CALLS ->
  main data s = (log (EModel data) (counted h s), Return (model_handler data)).
Proof.
  intros E Hk Hh Hn. run_gateway. rewrite E. gw.
  rewrite bool_decide_false by exact Hk.
  rewrite bool_decide_true by exact Hh.
  gw. rewrite lookup_insert_eq.
  by rewrite bool_decide_false by lia.
Qed.

Lemma main_at_threshold data h s :
  protocolHash data = Some h -> h ∉ KNOWN s -> h <> "chat" ->
  default 0 (HASH_COUNTER s !! h) + 1 >= TRIGGER_NUM_CALLS ->
  main data s =
    match programmer h (KNOWN s) with
    | (known, Return _) =>
        (log (EModel data) (with_known known (log (ECreate h) (counted h s))),
         Return (model_handler data))
    | (known, Raise e) => (with_known known (log (ECreate h) (counted h s)), Raise e)
    end.
Proof.
  intros E Hk Hh Hn. run_gateway. rewrite E. gw.
  rewrite bool_decide_false by exact Hk.
  rewrite bool_decide_true by exact Hh.
  gw. rewrite lookup_insert_eq.
  rewrite bool_decide_true by lia.
  gw. by destruct (programmer h (KNOWN s)) as [known [[]|e]].
Qed.

Lemma gateway_serve_cons data rest s :
  serve (data :: rest) s
  = ((serve rest (main data s).1).1, (main data s).2 :: (serve rest (main data s).1).2).
Proof.
  cbn [serve]. destruct (main data s) as [s1 out].
  cbn [fst snd]. by destruct (serve rest s1).
Qed.

(** No request ever adds the sentinel to [HASH_COUNTER]. *)
Lemma chat_not_counted data s :
  HASH_COUNTER s !! "chat" = None -> HASH_COUNTER (main data s).1 !! "chat" = None.
Proof.
  intros Hc. destruct (protocolHash data) as [h|] eqn:E.
  - destruct (decide (h ∈ KNOWN s)) as [Hk|Hk].
    + by rewrite (main_known data h s E Hk).
    + destruct (decide (h = "chat")) as [->|Hh].
      * by rewrite (main_chat data s E Hk Hc).
      * destruct (Z_lt_ge_dec (default 0 (HASH_COUNTER s !! h) + 1) TRIGGER_NUM_CALLS)
          as [Hn|Hn].
        -- rewrite (main_below_threshold data h s E Hk Hh Hn). cbn [fst].
           unfold counted, with_counter, log. gw. by rewrite lookup_insert_ne.
        -- rewrite (main_at_threshold data h s E Hk Hh Hn).
           destruct (programmer h (KNOWN s)) as [known [[]|e]]; cbn [fst];
             unfold counted, with_counter, with_known, log; gw;
             by rewrite lookup_insert_ne.
  - by rewrite (main_no_hash data s E).
Qed.

Lemma chat_never_counted requests :
  HASH_COUNTER (serve requests empty_store).1 !! "chat" = None.
Proof.
  assert (H : forall s, HASH_COUNTER s !! "chat" = None ->
                        HASH_COUNTER (serve requests s).1 !! "chat" = None).
  { induction requests as [|data rest IH]; intros s Hs; [exact Hs|].
    rewrite gateway_serve_cons. cbn [fst]. apply IH. by apply chat_not_counted. }
  apply H. reflexivity.
Qed.

(** After any sequence of requests, a request with the sentinel that the
    routine manager does not know raises and is not forwarded. *)
Lemma chat_request_always_raises requests data :
  protocolHash data = Some "chat" ->
  "chat" ∉ KNOWN (serve requests empty_store).1 ->
  main data (serve requests empty_store).1
  = (log ERoutines (serve requests empty_store).1, Raise (KeyError "chat")).
Proof.
  intros E Hk. apply main_chat; [exact E | exact Hk | apply chat_never_counted].
Qed.

(** *** The claims about the gateway variant *)

(** C8, at the failing input.  A request with the sentinel identifier
    [chat], unknown to the routine manager, is not counted; the lookup of its
    counter raises [KeyError], and the request is not forwarded to the model
    handler. *)
Theorem C8_chat_request_raises b :
  main (mkData (Some "chat") b) empty_store
  = (log ERoutines empty_store, Raise (KeyError "chat"))
  /\ filter is_model (LOG (main (mkData (Some "chat") b) empty_store).1) = [].
Proof.
  assert (E : main (mkData (Some "chat") b) empty_store
              = (log ERoutines empty_store, Raise (KeyError "chat"))).
  { apply main_chat; [reflexivity | apply not_elem_of_nil | reflexivity]. }
  rewrite E. split; reflexivity.
Qed.

(** C9, as the code has it.  For an identifier that is not the sentinel and
    that the routine manager does not know, the call is counted; below the
    threshold the request is forwarded to the model handler; at or above it,
    [create_and_save_routine] is called first: if it returns, the request is
    forwarded and the model handler's response returned, and if it raises,
    the request fails with that exception and is not forwarded. *)
Theorem C9_synthesis_is_called_in_line h data s :
  protocolHash data = Some h -> h ∉ KNOWN s -> h <> "chat" ->
  (default 0 (HASH_COUNTER s !! h) + 1 < TRIGGER_NUM_CALLS ->
     main data s = (log (EModel data) (counted h s), Return (model_handler data)))
  /\ (default 0 (HASH_COUNTER s !! h) + 1 >= TRIGGER_NUM_CALLS ->
      forall known out, programmer h (KNOWN s) = (known, out) ->
        main data s =
          match out with
          | Return _ =>
              (log (EModel data) (with_known known (log (ECreate h) (counted h s))),
               Return (model_handler data))
          | Raise e => (with_known known (log (ECreate h) (counted h s)), Raise e)
          end).
Proof.
  intros E Hk Hh. split.
  - intros Hn. exact (main_below_threshold data h s E Hk Hh Hn).
  - intros Hn known out Ep.
    rewrite (main_at_threshold data h s E Hk Hh Hn), Ep. reflexivity.
Qed.

End Paths.

(** Scenario C for an identifier that is not the sentinel: two requests, one
    call of [create_and_save_routine], made on the second. *)
Lemma two_requests_one_synthesis :
  let S := example_services true in
  let data := mkData (Some "P2") "hi" in
  filter is_create (LOG (@main S data empty_store).1) = []
  /\ filter is_create (LOG (@serve S [data; data] empty_store).1) = [ECreate "P2"]
  /\ (@serve S [data; data] empty_store).2 = [Return "model: hi"; Return "model: hi"].
Proof. vm_compute. repeat split. Qed.

(** C9 with a programmer that succeeds, on the second request for [P2]. *)
Lemma C9_synthesis_is_called_in_line_witness :
  let S := example_services true in
  let data := mkData (Some "P2") "hi" in
  let s := (@main S data empty_store).1 in
  @main S data s
  = (log (EModel data) (with_known ["P2"] (log (ECreate "P2") (counted "P2" s))),
     Return "model: hi").
Proof.
  intros S data s.
  refine (proj2 (@C9_synthesis_is_called_in_line S "P2" data s eq_refl _ _) _
            ["P2"] (Return tt) eq_refl).
  - vm_compute. apply not_elem_of_nil.
  - discriminate.
  - vm_compute. discriminate.
Defined.

(** C9 as it was claimed fails when the programmer raises: of three requests
    for [P2], the second, which triggers the synthesis, fails with the
    programmer's exception and is not forwarded, and the third calls the
    programmer again. *)
Lemma C9_counterexample :
  let S := example_services false in
  let data := mkData (Some "P2") "hi" in
  (@serve S [data; data; data] empty_store).2
  = [Return "model: hi"; Raise (External "programmer"); Raise (External "programmer")]
  /\ filter is_model (LOG (@serve S [data; data; data] empty_store).1) = [EModel data]
  /\ filter is_create (LOG (@serve S [data; data; data] empty_store).1)
     = [ECreate "P2"; ECreate "P2"].
Proof. vm_compute. repeat split. Qed.

End GatewayProofs.

(** ** The server variant: further properties of the dispatcher *)

Module ServerExtras.
Import Server ServerProofs.

Section Steps.
Context `{Collab : Collaborators}.

Lemma advertised_eq h m :
  advertised h m = Return ((fun s => [s]) <$> source_of h m).
Proof.
  unfold advertised, wellknown, source_of, bind, gets, ret. cbn [fst snd protocols].
  rewrite lookup_fmap. by destruct (PROTOCOL_INFOS m !! h).
Qed.

Lemma main_routines data m k code :
  ROUTINES m !! k = Some code -> ROUTINES (main data m).1 !! k = Some code.
Proof.
  intros Hk. destruct (main_cases data m) as [[_ E] | (h & Eh & H)].
  - by rewrite E.
  - destruct (main data m) as [m' out]. exact (Dispatch_routines _ _ _ _ _ _ _ _ H Hk).
Qed.

Lemma main_source data m k s :
  source_of k m = Some s -> source_of k (main data m).1 = Some s.
Proof.
  intros Hk. destruct (decide (protocolHash data = Some k)) as [Ek|Hne].
  - destruct (main_cases data m) as [[E _] | (h & Eh & H)]; [congruence|].
    assert (h = k) as -> by congruence.
    destruct (main data m) as [m' out]. exact (Dispatch_source _ _ _ _ _ _ _ H Hk).
  - unfold source_of in *. by destruct (main_frame data m k Hne) as [-> _].
Qed.

(** The calls a promotion makes. *)
Lemma Promotion_calls h q m m' out :
  Promotion h q m (m', out) ->
  exists evs, LOG m' = LOG m ++ evs
    /\ (evs = [ELoad h; EWrite h] /\ ROUTINES m' = ROUTINES m
          /\ synthesize_routine [] (stored_document h) = None
          /\ out = Raise (External "programmer")
        \/ (exists impl, evs = [ELoad h; EWrite h; EExecute h q]
              /\ synthesize_routine [] (stored_document h) = Some impl
              /\ ROUTINES m' = <[h := impl]> (ROUTINES m)
              /\ out = Return (execution_result impl q))
        \/ evs = [EReply q (Some h)] /\ ROUTINES m' = ROUTINES m).
Proof.
  intros H. invert_promotion H; open_store.
  - exists [ELoad h; EWrite h]. split; [reflexivity|]. left. by repeat split.
  - exists [ELoad h; EWrite h; EExecute h q]. rewrite <- app_assoc.
    split; [reflexivity|]. right. left. exists pimpl. by repeat split.
  - exists [EReply q (Some h)]. split; [reflexivity|]. right. right. by split.
Qed.

Lemma filter_other_protocol (P : string -> Event -> bool) h k (evs : list Event) :
  (forall e, concerns h e -> P k e = false) ->
  Forall (concerns h) evs -> filter (P k) evs = [].
Proof.
  intros HP Hc. apply filter_none. intros e He.
  rewrite Forall_forall in Hc. apply HP, Hc, He.
Qed.

Lemma is_write_other h k e : h <> k -> concerns h e -> is_write k e = false.
Proof.
  intros Hne Hc. destruct e; try reflexivity.
  cbn in *. apply bool_decide_eq_false. congruence.
Qed.

Lemma is_check_other h k e : h <> k -> concerns h e -> is_check k e = false.
Proof.
  intros Hne Hc. destruct e; try reflexivity.
  cbn in *. apply bool_decide_eq_false. congruence.
Qed.

(** The calls of a request that does not name [k] do not concern [k]. *)
Lemma main_calls_other data m k :
  protocolHash data <> Some k ->
  Forall (fun e => ~ concerns k e) (calls_since m (main data m).1).
Proof.
  intros Hne. destruct (main_cases data m) as [[_ E] | (h & Eh & H)].
  - rewrite E. cbn [fst].
    rewrite (calls_since_app _ _ [EReply (body data) None]) by reflexivity.
    repeat constructor. cbn. discriminate.
  - destruct (main data m) as [m' out]. cbn [fst].
    destruct (Dispatch_log _ _ _ _ _ _ H) as (evs & E & Hc).
    rewrite (calls_since_app _ _ _ E).
    eapply Forall_impl; [exact Hc|].
    intros e He Hk. apply Hne. rewrite Eh. f_equal.
    destruct e; cbn in *; congruence.
Qed.

(** One request and the programmer, for a protocol with a routine and for
    one without. *)
Lemma write_step_cached data m h :
  is_Some (ROUTINES m !! h) ->
  filter (is_write h) (calls_since m (main data m).1) = [].
Proof.
  intros [code Hr]. destruct (main_cases data m) as [[_ E] | (k & Ek & H)].
  - rewrite E. cbn [fst].
    by rewrite (calls_since_app _ _ [EReply (body data) None]).
  - destruct (main data m) as [m' out]. cbn [fst].
    destruct (decide (k = h)) as [->|Hne].
    + invert_dispatch H; try congruence.
      by rewrite (calls_since_app _ _ [EExecute h (body data)]).
    + destruct (Dispatch_log _ _ _ _ _ _ H) as (evs & E & Hc).
      rewrite (calls_since_app _ _ _ E).
      apply (filter_other_protocol is_write k h); [|exact Hc].
      intros e. by apply is_write_other.
Qed.

Lemma filter_write_promotion h q (pre evs : list Event) :
  filter (is_write h) pre = [] ->
  (evs = [ELoad h; EWrite h] \/ evs = [ELoad h; EWrite h; EExecute h q]) ->
  filter (is_write h) (pre ++ evs) = [EWrite h].
Proof.
  intros Hpre Hevs. rewrite filter_app, Hpre.
  destruct Hevs as [-> | ->]; cbn [app];
    rewrite filter_cons_False by (cbn; tauto);
    rewrite filter_cons_True by (cbn; by rewrite bool_decide_true);
    [reflexivity|]. by rewrite filter_cons_False by (cbn; tauto).
Qed.

Lemma write_step_uncached data m h impl :
  ROUTINES m !! h = None ->
  synthesize_routine [] (stored_document h) = Some impl ->
  (filter (is_write h) (calls_since m (main data m).1) = []
   /\ ROUTINES (main data m).1 !! h = None)
  \/ (filter (is_write h) (calls_since m (main data m).1) = [EWrite h]
      /\ ROUTINES (main data m).1 !! h = Some impl).
Proof.
  intros Hr Hs. destruct (decide (protocolHash data = Some h)) as [Eh|Hne].
  - destruct (main_cases data m) as [[E _] | (k & Ek & H)]; [congruence|].
    assert (k = h) as -> by congruence.
    destruct (main data m) as [m' out]. cbn [fst].
    inversion H as
      [ code Er | info Er Ei Es | info Er Ei Es Ec | info r Er Ei Es HP
      | info r Er Ei Es Ec HP | Er Ei Hf
      | pre src post doc r Er Ei Hsrcs Hf Hsrc HP ]; subst; clear H.
    + congruence.
    + left. by rewrite calls_since_refl.
    + left. by rewrite (calls_since_app _ _ [ELoad h; ECheck h (body data)]).
    + destruct (Promotion_calls _ _ _ _ _ HP)
        as (evs & E & [(-> & _ & Hn & _) | [(i & -> & Hi & Er' & _) | (-> & Er')]]).
      * congruence.
      * right. rewrite (calls_since_app _ _ _ E). split.
        -- apply (filter_write_promotion h (body data) []); [reflexivity|]. by right.
        -- rewrite Er', lookup_insert_eq. congruence.
      * left. rewrite (calls_since_app _ _ _ E). split; [reflexivity|].
        by rewrite Er'.
    + destruct (Promotion_calls _ _ _ _ _ HP)
        as (evs & E & [(-> & _ & Hn & _) | [(i & -> & Hi & Er' & _) | (-> & Er')]]).
      * congruence.
      * right. split.
        -- rewrite (calls_since_app _ _
              ([ELoad h; ECheck h (body data)] ++ [ELoad h; EWrite h; EExecute h (body data)]))
            by (rewrite E; open_store; by rewrite <- app_assoc).
           apply (filter_write_promotion h (body data)); [reflexivity|]. by right.
        -- rewrite Er'. open_store. rewrite lookup_insert_eq. congruence.
      * left. split.
        -- by rewrite (calls_since_app _ _
              ([ELoad h; ECheck h (body data)] ++ [EReply (body data) (Some h)]))
            by (rewrite E; open_store; by rewrite <- app_assoc).
        -- rewrite Er'. exact Er.
    + left. split; [|exact Er].
      rewrite (calls_since_app _ _ (EDownload h <$> protocolSources data)) by reflexivity.
      apply filter_none. intros e He.
      apply list_elem_of_fmap in He as (? & -> & _). reflexivity.
    + assert (Hd : filter (is_write h) (EDownload h <$> pre ++ [src]) = []).
      { apply filter_none. intros e He.
        apply list_elem_of_fmap in He as (? & -> & _). reflexivity. }
      destruct (Promotion_calls _ _ _ _ _ HP)
        as (evs & E & [(-> & _ & Hn & _) | [(i & -> & Hi & Er' & _) | (-> & Er')]]).
      * congruence.
      * right. split.
        -- rewrite (calls_since_app _ _
              ((EDownload h <$> pre ++ [src]) ++ [ELoad h; EWrite h; EExecute h (body data)]))
            by (rewrite E; open_store; by rewrite <- app_assoc).
           apply (filter_write_promotion h (body data)); [exact Hd|]. by right.
        -- rewrite Er'. open_store. rewrite lookup_insert_eq. congruence.
      * left. split.
        -- rewrite (calls_since_app _ _
              ((EDownload h <$> pre ++ [src]) ++ [EReply (body data) (Some h)]))
            by (rewrite E; open_store; by rewrite <- app_assoc).
           by rewrite filter_app, Hd.
        -- rewrite Er'. exact Er.
  - left. destruct (main_frame data m h Hne) as [_ ->]. split; [|exact Hr].
    apply filter_none. intros e He.
    pose proof (main_calls_other data m h Hne) as Hc.
    rewrite Forall_forall in Hc. specialize (Hc e He).
    destruct e; try reflexivity. cbn in *. by apply bool_decide_eq_false.
Qed.




Lemma routines_run requests m k code :
  ROUTINES m !! k = Some code -> ROUTINES (serve requests m).1 !! k = Some code.
Proof.
  revert m. induction requests as [|data rest IH]; intros m Hk; [exact Hk|].
  rewrite serve_cons. cbn [fst]. by apply IH, main_routines.
Qed.

Lemma cached_no_write requests m h :
  is_Some (ROUTINES m !! h) ->
  filter (is_write h) (calls_since m (serve requests m).1) = [].
Proof.
  revert m. induction requests as [|data rest IH]; intros m Hr.
  - cbn [serve fst]. by rewrite calls_since_refl.
  - rewrite serve_calls, filter_app, (write_step_cached data m h Hr).
    rewrite IH; [reflexivity|].
    destruct Hr as [code Hr]. exists code. by apply main_routines.
Qed.

End Steps.

(** *** Properties *)

Section Properties.
Context `{Collab : Collaborators}.

(** X1. What [/wellknown] advertises for a protocol, its single registered
    source, is advertised unchanged after any sequence of requests;
    [wellknown] itself answers with status success and leaves the store as it
    is. *)
Theorem advertised_protocols_persist requests m h srcs :
  advertised h m = Return (Some srcs) ->
  advertised h (serve requests m).1 = Return (Some srcs)
  /\ (exists src, srcs = [src])
  /\ (wellknown m).1 = m
  /\ (exists w, (wellknown m).2 = Return w /\ status w = "success").
Proof.
  intros Ha. rewrite advertised_eq in Ha.
  destruct (source_of h m) as [src|] eqn:Hs; [|discriminate].
  injection Ha as <-. split; [|split; [eauto | split; [reflexivity|]]].
  - rewrite advertised_eq.
    assert (H : forall reqs m0, source_of h m0 = Some src ->
                                source_of h (serve reqs m0).1 = Some src).
    { induction reqs as [|data rest IH]; intros m0 H0; [exact H0|].
      rewrite serve_cons. cbn [fst]. by apply IH, main_source. }
    by rewrite (H requests m Hs).
  - eexists. split; reflexivity.
Qed.

(** X2. A request that registers a protocol from its first valid source
    makes [/wellknown] advertise exactly that source for it, where nothing
    was advertised before, and changes no other advertisement. *)
Theorem advertised_after_registration h pre src post doc q m :
  ROUTINES m !! h = None -> PROTOCOL_INFOS m !! h = None ->
  Forall (fails h) pre -> fetch_and_verify h src = Some doc ->
  let m' := (handle_query (Some h) (pre ++ src :: post) q m).1 in
  advertised h m = Return None
  /\ advertised h m' = Return (Some [src])
  /\ forall k, k <> h -> advertised k m' = advertised k m.
Proof.
  intros Er Ei Hf Hs m'.
  pose proof (handle_query_Dispatch h (pre ++ src :: post) q m) as H.
  rewrite !advertised_eq. unfold source_of. rewrite Ei.
  split; [reflexivity|]. split.
  - unfold m'. rewrite (handle_query_unregistered h _ q m Er Ei).
    rewrite (try_sources_first h pre src post doc q m Ei Hf Hs).
    set (m1 := registered h src (logs (EDownload h <$> pre ++ [src]) m)).
    assert (HP : Promotion h q m1 (handle_query_suitable h q m1)).
    { eapply handle_query_suitable_Promotion; [|exact Er].
      unfold m1, registered, with_infos, logs. st. apply lookup_insert_eq. }
    destruct (handle_query_suitable h q m1) as [m2 out]. cbn [fst].
    rewrite (Promotion_infos _ _ _ _ _ HP). unfold m1. open_store.
    by rewrite lookup_alter_eq, lookup_insert_eq.
  - intros k Hk. rewrite !advertised_eq. unfold source_of, m'.
    destruct (handle_query (Some h) (pre ++ src :: post) q m) as [m2 out].
    cbn [fst]. by destruct (Dispatch_frame _ _ _ _ _ _ k H Hk) as [-> _].
Qed.

(** X3. Requests none of which names the protocol [k] leave its registry
    record and its routine as they were and make no collaborator call that
    concerns it. *)
Theorem other_protocols_are_untouched requests m k :
  Forall (fun data => protocolHash data <> Some k) requests ->
  PROTOCOL_INFOS (serve requests m).1 !! k = PROTOCOL_INFOS m !! k
  /\ ROUTINES (serve requests m).1 !! k = ROUTINES m !! k
  /\ Forall (fun e => ~ concerns k e) (calls_since m (serve requests m).1).
Proof.
  intros Hf. revert m. induction Hf as [|data rest Hd _ IH]; intros m.
  - cbn [serve fst]. rewrite calls_since_refl. repeat split. constructor.
  - destruct (IH (main data m).1) as (Ei & Er & Hc).
    destruct (main_frame data m k Hd) as [Ei1 Er1].
    rewrite serve_calls. rewrite serve_cons. cbn [fst].
    rewrite Ei, Er, Ei1, Er1. repeat split.
    apply Forall_app. split; [by apply main_calls_other | exact Hc].
Qed.

(** X4. A stored routine is never removed nor replaced: it is the routine of
    its protocol after any sequence of requests, and the programmer is not
    called for that protocol again. *)
Theorem routines_are_permanent requests m h code :
  ROUTINES m !! h = Some code ->
  ROUTINES (serve requests m).1 !! h = Some code
  /\ filter (is_write h) (calls_since m (serve requests m).1) = [].
Proof.
  intros Hr. split; [by apply routines_run | apply cached_no_write; eauto].
Qed.


(** X6. Where the programmer succeeds for a protocol, it is called for it at
    most once over any sequence of requests. *)
Theorem programmer_called_at_most_once requests m h impl :
  synthesize_routine [] (stored_document h) = Some impl ->
  (length (filter (is_write h) (calls_since m (serve requests m).1)) <= 1)%nat.
Proof.
  intros Hs. revert m. induction requests as [|data rest IH]; intros m.
  - cbn [serve fst]. rewrite calls_since_refl. cbn. lia.
  - rewrite serve_calls, filter_app, length_app.
    destruct (ROUTINES m !! h) as [code|] eqn:Hr.
    + rewrite (write_step_cached data m h) by eauto.
      specialize (IH (main data m).1). cbn [length]. lia.
    + destruct (write_step_uncached data m h impl Hr Hs) as [[-> _] | [-> Hr']].
      * specialize (IH (main data m).1). cbn [length]. lia.
      * rewrite (cached_no_write rest (main data m).1 h) by eauto. cbn. lia.
Qed.


(** X8. A refusal is remembered: when the checker rejects a registered
    protocol of unknown suitability, that request and every later request
    for the protocol are answered by the not-suitable error, and the checker
    has been called exactly once, on the first of them. *)
Theorem refusal_is_remembered h srcs q m info requests :
  ROUTINES m !! h = None -> PROTOCOL_INFOS m !! h = Some info ->
  suitability info = UNKNOWN ->
  check_suitability (stored_document h) q = false ->
  let run := serve (mkRequest (Some h) srcs q :: requests) m in
  run.2 !! 0%nat = Some (Return not_suitable)
  /\ (forall i data, requests !! i = Some data -> protocolHash data = Some h ->
        run.2 !! S i = Some (Return not_suitable))
  /\ filter (is_check h) (calls_since m run.1) = [ECheck h q].
Proof.
  intros Er Ei Es Ec run.
  assert (E : main (mkRequest (Some h) srcs q) m
              = (classified INADEQUATE h q m, Return not_suitable)).
  { unfold main. cbn [protocolHash protocolSources body].
    by rewrite (handle_query_unknown h srcs q m info Er Ei Es), Ec. }
  destruct (inadequate_run h requests (classified INADEQUATE h q m))
    as (_ & _ & Hc & Ho).
  { unfold suitability_of. open_store. by rewrite lookup_alter_eq, Ei. }
  { exact Er. }
  unfold run. rewrite serve_calls, serve_cons, E. cbn [fst snd].
  split; [reflexivity|]. split; [exact Ho|].
  rewrite filter_app, Hc, app_nil_r.
  rewrite (calls_since_app _ _ [ELoad h; ECheck h q]) by reflexivity.
  rewrite filter_cons_False by (cbn; tauto).
  by rewrite filter_cons_True by (cbn; by rewrite bool_decide_true).
Qed.

(** X9. A protocol registered from a source is handled at once as adequate
    but is stored with suitability UNKNOWN; if the programmer failed on that
    request, the next request for it calls the checker. *)
Theorem registration_skips_classification h pre src post doc q m :
  ROUTINES m !! h = None -> PROTOCOL_INFOS m !! h = None ->
  Forall (fails h) pre -> fetch_and_verify h src = Some doc ->
  let r := handle_query (Some h) (pre ++ src :: post) q m in
  suitability_of h r.1 = Some UNKNOWN
  /\ (synthesize_routine [] (stored_document h) = None ->
      r.2 = Raise (External "programmer")
      /\ forall srcs' q', ECheck h q' ∈ calls_since r.1 (handle_query (Some h) srcs' q' r.1).1).
Proof.
  intros Er Ei Hf Hs r.
  set (m1 := registered h src (logs (EDownload h <$> pre ++ [src]) m)).
  assert (Ei1 : PROTOCOL_INFOS m1 !! h = Some (mkInfo src UNKNOWN 0)).
  { unfold m1, registered, with_infos, logs. st. apply lookup_insert_eq. }
  assert (E : r = handle_query_suitable h q m1).
  { unfold r. rewrite (handle_query_unregistered h _ q m Er Ei).
    by apply (try_sources_first h pre src post doc). }
  rewrite E. split.
  - pose proof (handle_query_suitable_Promotion h q m1 _ Ei1 Er) as HP.
    destruct (handle_query_suitable h q m1) as [m2 out]. cbn [fst].
    unfold suitability_of. rewrite (Promotion_infos _ _ _ _ _ HP).
    by rewrite lookup_alter_eq, Ei1.
  - intros Hn.
    rewrite (handle_query_suitable_promote h q m1 _ Ei1 Er)
      by (unfold NUM_CONVERSATIONS_FOR_ROUTINE; cbn; lia).
    rewrite Hn. cbn [fst snd]. split; [reflexivity|]. intros srcs' q'.
    set (m2 := synthesized h m1).
    assert (Ei2 : PROTOCOL_INFOS m2 !! h = Some (mkInfo src UNKNOWN 1)).
    { unfold m2. open_store. by rewrite lookup_alter_eq, Ei1. }
    rewrite (handle_query_unknown h srcs' q' m2 _ Er Ei2 eq_refl).
    destruct (check_suitability (stored_document h) q').
    + assert (HP : Promotion h q' (classified ADEQUATE h q' m2)
                     (handle_query_suitable h q' (classified ADEQUATE h q' m2))).
      { apply (handle_query_suitable_Promotion h q' _ (mkInfo src ADEQUATE 1));
          [|exact Er].
        by unfold classified, with_infos, logs; st; rewrite lookup_alter_eq, Ei2. }
      destruct (handle_query_suitable h q' (classified ADEQUATE h q' m2)) as [m3 out].
      cbn [fst].
      destruct (Promotion_log _ _ _ _ _ HP) as (evs & El & _).
      rewrite (calls_since_app _ _ ([ELoad h; ECheck h q'] ++ evs))
        by (rewrite El; open_store; by rewrite <- app_assoc).
      set_solver.
    + cbn [fst].
      rewrite (calls_since_app _ _ [ELoad h; ECheck h q']) by reflexivity.
      set_solver.
Qed.

(** X10. Once a query has promoted an adequate protocol (one whose count is
    not negative, as every count the dispatcher produces), every later query
    for it, whatever requests came in between, is answered by executing that
    same routine, with the execution as the only call. *)
Theorem promoted_protocol_is_served_from_cache h srcs q m info impl requests srcs' q' :
  PROTOCOL_INFOS m !! h = Some info -> suitability info = ADEQUATE ->
  0 <= num_conversations info ->
  ROUTINES m !! h = None ->
  synthesize_routine [] (stored_document h) = Some impl ->
  let m1 := (serve (mkRequest (Some h) srcs q :: requests) m).1 in
  handle_query (Some h) srcs' q' m1
  = (log (EExecute h q') m1, Return (execution_result impl q')).
Proof.
  intros Ei Es Hn Er Hs m1.
  assert (Hr : ROUTINES m1 !! h = Some impl).
  { unfold m1. rewrite serve_cons. cbn [fst]. apply routines_run.
    unfold main. cbn [protocolHash protocolSources body].
    rewrite (handle_query_adequate h srcs q m info Er Ei Es).
    rewrite (handle_query_suitable_promote h q m info Ei Er).
    - rewrite Hs. cbn [fst]. open_store. apply lookup_insert_eq.
    - unfold NUM_CONVERSATIONS_FOR_ROUTINE. lia. }
  rewrite (handle_query_cached h srcs' q' m1 impl Hr).
  by apply call_implementation_cached.
Qed.

End Properties.

(** *** Worked examples *)

Lemma advertised_protocols_persist_witness :
  let C := example_collaborators true true true in
  let m := example_memory ADEQUATE 0 false in
  advertised "P1" (@serve C [mkRequest (Some "P1") [] "hi"; mkRequest None [] "x"] m).1
  = Return (Some ["S1"]).
Proof.
  intros C m.
  exact (proj1 (@advertised_protocols_persist C
                  [mkRequest (Some "P1") [] "hi"; mkRequest None [] "x"]
                  m "P1" ["S1"] eq_refl)).
Defined.

Lemma advertised_after_registration_witness :
  let C := example_collaborators true true true in
  advertised "P2" (@handle_query C (Some "P2") ["S0"; "S1"; "S2"] "hi" empty_memory).1
  = Return (Some ["S1"]).
Proof.
  intros C.
  refine (proj1 (proj2 (@advertised_after_registration C "P2" ["S0"] "S1" ["S2"]
                          "document at S1" "hi" empty_memory eq_refl eq_refl _ eq_refl))).
  repeat constructor.
Defined.

Lemma other_protocols_are_untouched_witness :
  let C := example_collaborators true true true in
  let m := example_memory ADEQUATE 0 false in
  PROTOCOL_INFOS
    (@serve C [mkRequest (Some "P2") ["S1"] "hi"; mkRequest None [] "x"] m).1 !! "P1"
  = PROTOCOL_INFOS m !! "P1".
Proof.
  intros C m.
  refine (proj1 (@other_protocols_are_untouched C
                   [mkRequest (Some "P2") ["S1"] "hi"; mkRequest None [] "x"]
                   m "P1" _)).
  repeat constructor; discriminate.
Defined.

Lemma routines_are_permanent_witness :
  let C := example_collaborators true true true in
  let m := example_memory ADEQUATE 0 true in
  ROUTINES (@serve C [mkRequest (Some "P1") [] "hi"; mkRequest (Some "P2") ["S1"] "x"] m).1
    !! "P1" = Some "routine".
Proof.
  intros C m.
  exact (proj1 (@routines_are_permanent C
                  [mkRequest (Some "P1") [] "hi"; mkRequest (Some "P2") ["S1"] "x"]
                  m "P1" "routine" eq_refl)).
Defined.


Lemma programmer_called_at_most_once_witness :
  let C := example_collaborators true true true in
  let m := example_memory ADEQUATE 0 false in
  (length (filter (is_write "P1")
     (calls_since m
        (@serve C [mkRequest (Some "P1") [] "a"; mkRequest (Some "P1") [] "b"] m).1))
   <= 1)%nat.
Proof.
  intros C m.
  exact (@programmer_called_at_most_once C
           [mkRequest (Some "P1") [] "a"; mkRequest (Some "P1") [] "b"]
           m "P1" "routine for document of P1" eq_refl).
Defined.

Lemma refusal_is_remembered_witness :
  let C := example_collaborators false true true in
  let m := example_memory UNKNOWN 0 false in
  filter (is_check "P1")
    (calls_since m
       (@serve C [mkRequest (Some "P1") [] "a"; mkRequest (Some "P1") [] "b"] m).1)
  = [ECheck "P1" "a"].
Proof.
  intros C m.
  exact (proj2 (proj2 (@refusal_is_remembered C "P1" [] "a" m (mkInfo "S1" UNKNOWN 0)
                         [mkRequest (Some "P1") [] "b"]
                         eq_refl eq_refl eq_refl eq_refl))).
Defined.

Lemma registration_skips_classification_witness :
  let C := example_collaborators true false true in
  suitability_of "P2"
    (@handle_query C (Some "P2") ["S0"; "S1"; "S2"] "hi" empty_memory).1
  = Some UNKNOWN.
Proof.
  intros C.
  refine (proj1 (@registration_skips_classification C "P2" ["S0"] "S1" ["S2"]
                   "document at S1" "hi" empty_memory eq_refl eq_refl _ eq_refl)).
  repeat constructor.
Defined.

Lemma promoted_protocol_is_served_from_cache_witness :
  let C := example_collaborators true true true in
  let m := example_memory ADEQUATE 0 false in
  let m1 := (@serve C [mkRequest (Some "P1") [] "a"; mkRequest None [] "b"] m).1 in
  @handle_query C (Some "P1") [] "c" m1
  = (log (EExecute "P1" "c") m1,
     Return (@execution_result C "routine for document of P1" "c")).
Proof.
  intros C m m1.
  refine (@promoted_protocol_is_served_from_cache C "P1" [] "a" m
            (mkInfo "S1" ADEQUATE 0) "routine for document of P1"
            [mkRequest None [] "b"] [] "c" eq_refl eq_refl _ eq_refl eq_refl).
  simpl. lia.
Defined.

End ServerExtras.

(** ** The gateway variant: further properties of [main] *)

Module GatewayExtras.
Import Gateway GatewayProofs.

Section Steps.
Context `{Serv : Services}.


(** The sentinel with a counter of its own, which no request produces. *)
Lemma main_chat_counted data s n :
  protocolHash data = Some "chat" -> "chat" ∉ KNOWN s ->
  HASH_COUNTER s !! "chat" = Some n ->
  main data s =
    if bool_decide (n >= TRIGGER_NUM_CALLS) then
      match programmer "chat" (KNOWN s) with
      | (known, Return _) =>
          (log (EModel data) (with_known known (log (ECreate "chat") (log ERoutines s))),
           Return (model_handler data))
      | (known, Raise e) =>
          (with_known known (log (ECreate "chat") (log ERoutines s)), Raise e)
      end
    else (log (EModel data) (log ERoutines s), Return (model_handler data)).
Proof.
  intros E Hk Hc. run_gateway. rewrite E. gw.
  rewrite bool_decide_false by exact Hk.
  rewrite bool_decide_false by (intros H; by apply H).
  gw. rewrite Hc. case_bool_decide; [|reflexivity].
  gw. by destruct (programmer "chat" (KNOWN s)) as [known [[]|e]].
Qed.

(** Every path of [main]: the calls made, the outcome, and the counter and
    the routine manager's hashes afterwards. *)
Lemma gateway_paths data s :
  exists evs, LOG (main data s).1 = LOG s ++ evs /\
    ((protocolHash data = None /\ evs = [EModel data]
      /\ (main data s).2 = Return (model_handler data)
      /\ HASH_COUNTER (main data s).1 = HASH_COUNTER s
      /\ KNOWN (main data s).1 = KNOWN s)
     \/ (exists h, protocolHash data = Some h /\ h ∈ KNOWN s
          /\ evs = [ERoutines; ECall data]
          /\ (main data s).2 = Return (routine_manager data)
          /\ HASH_COUNTER (main data s).1 = HASH_COUNTER s
          /\ KNOWN (main data s).1 = KNOWN s)
     \/ (exists h, protocolHash data = Some h /\ (h ∉ KNOWN s)
          /\ HASH_COUNTER (main data s).1
             = (if decide (h = "chat") then HASH_COUNTER s
                else <[h := default 0 (HASH_COUNTER s !! h) + 1]> (HASH_COUNTER s))
          /\ ((evs = [ERoutines] /\ (main data s).2 = Raise (KeyError h)
               /\ h = "chat" /\ HASH_COUNTER s !! h = None)
              \/ (evs = [ERoutines; EModel data]
                  /\ (main data s).2 = Return (model_handler data)
                  /\ KNOWN (main data s).1 = KNOWN s
                  /\ exists n, HASH_COUNTER (main data s).1 !! h = Some n
                       /\ n < TRIGGER_NUM_CALLS)
              \/ (exists n, HASH_COUNTER (main data s).1 !! h = Some n
                    /\ n >= TRIGGER_NUM_CALLS
                    /\ ((evs = [ERoutines; ECreate h; EModel data]
                         /\ (main data s).2 = Return (model_handler data)
                         /\ programmer h (KNOWN s) = (KNOWN (main data s).1, Return tt))
                        \/ (exists e, evs = [ERoutines; ECreate h]
                              /\ (main data s).2 = Raise e
                              /\ programmer h (KNOWN s)
                                 = (KNOWN (main data s).1, Raise e))))))).
Proof.
  destruct (protocolHash data) as [h|] eqn:E.
  - destruct (decide (h ∈ KNOWN s)) as [Hk|Hk].
    + rewrite (main_known data h s E Hk). exists [ERoutines; ECall data].
      split; [unfold log; gw; by rewrite <- app_assoc|].
      right. left. exists h. by repeat split.
    + destruct (decide (h = "chat")) as [->|Hh].
      * destruct (HASH_COUNTER s !! "chat") as [n|] eqn:Hc.
        -- rewrite (main_chat_counted data s n E Hk Hc).
           case_bool_decide as Hn.
           ++ destruct (programmer "chat" (KNOWN s)) as [known [[]|e]] eqn:Ep;
                cbn [fst snd]; unfold with_known, log; gw.
              ** exists [ERoutines; ECreate "chat"; EModel data].
                 split; [by rewrite <- !app_assoc|].
                 right. right. exists "chat". repeat split; try done.
                 right. right. exists n. repeat split; try done. by left.
              ** exists [ERoutines; ECreate "chat"].
                 split; [by rewrite <- !app_assoc|].
                 right. right. exists "chat". repeat split; try done.
                 right. right. exists n. repeat split; try done.
                 right. by exists e.
           ++ cbn [fst snd]. unfold log. gw. exists [ERoutines; EModel data].
              split; [by rewrite <- !app_assoc|].
              right. right. exists "chat". repeat split; try done.
              right. left. repeat split; try done. exists n. split; [done | lia].
        -- rewrite (main_chat data s E Hk Hc). exists [ERoutines].
           split; [reflexivity|].
           right. right. exists "chat". repeat split; try done. by left.
      * assert (Hd : forall (a b : gmap string Z),
                  (if decide (h = "chat") then a else b) = b)
          by (intros; by rewrite decide_False).
        destruct (Z_lt_ge_dec (default 0 (HASH_COUNTER s !! h) + 1) TRIGGER_NUM_CALLS)
          as [Hn|Hn].
        -- rewrite (main_below_threshold data h s E Hk Hh Hn). cbn [fst snd].
           unfold counted, with_counter, log. gw. exists [ERoutines; EModel data].
           split; [by rewrite <- !app_assoc|].
           right. right. exists h. rewrite Hd. repeat split; try done.
           right. left. repeat split; try done.
           eexists. split; [apply lookup_insert_eq | exact Hn].
        -- rewrite (main_at_threshold data h s E Hk Hh Hn).
           destruct (programmer h (KNOWN s)) as [known [[]|e]] eqn:Ep;
             cbn [fst snd]; unfold counted, with_counter, with_known, log; gw.
           ++ exists [ERoutines; ECreate h; EModel data].
              split; [by rewrite <- !app_assoc|].
              right. right. exists h. rewrite Hd. repeat split; try done.
              right. right. eexists. split; [apply lookup_insert_eq|].
              split; [exact Hn|]. by left.
           ++ exists [ERoutines; ECreate h].
              split; [by rewrite <- !app_assoc|].
              right. right. exists h. rewrite Hd. repeat split; try done.
              right. right. eexists. split; [apply lookup_insert_eq|].
              split; [exact Hn|]. right. by exists e.
  - rewrite (main_no_hash data s E). exists [EModel data].
    split; [reflexivity|]. left. by repeat split.
Qed.

Lemma gateway_serve_log requests s :
  exists evs, LOG (serve requests s).1 = LOG s ++ evs.
Proof.
  revert s. induction requests as [|data rest IH]; intros s.
  - exists []. cbn. by rewrite app_nil_r.
  - rewrite gateway_serve_cons. cbn [fst].
    destruct (gateway_paths data s) as (evs1 & E1 & _).
    destruct (IH (main data s).1) as (evs2 & E2).
    exists (evs1 ++ evs2). rewrite E2, E1. by rewrite <- app_assoc.
Qed.

Lemma counter_step data s k n :
  HASH_COUNTER s !! k = Some n ->
  exists n', HASH_COUNTER (main data s).1 !! k = Some n' /\ n <= n' <= n + 1.
Proof.
  intros Hk.
  destruct (gateway_paths data s)
    as (evs & _ & [(_ & _ & _ & -> & _) | [(h & _ & _ & _ & _ & -> & _)
                  | (h & _ & _ & -> & _)]]).
  - exists n. split; [exact Hk | lia].
  - exists n. split; [exact Hk | lia].
  - destruct (decide (h = "chat")); [exists n; split; [exact Hk | lia]|].
    destruct (decide (h = k)) as [->|Hne].
    + rewrite lookup_insert_eq, Hk. cbn. eexists. split; [reflexivity | lia].
    + rewrite lookup_insert_ne by done. exists n. split; [exact Hk | lia].
Qed.


End Steps.

(** *** Properties *)

Section Properties.
Context `{Serv : Services}.

(** X11. A request changes [HASH_COUNTER] at one key at most: the counter of
    its own identifier, when that identifier is unknown to the routine
    manager and is not the sentinel, becomes one more than it was (one, if
    there was none); this also when the request then fails. *)
Theorem counter_changes_only_when_counted data s k :
  HASH_COUNTER (main data s).1 !! k
  = if bool_decide (protocolHash data = Some k /\ (k ∉ KNOWN s) /\ k <> "chat")
    then Some (default 0 (HASH_COUNTER s !! k) + 1)
    else HASH_COUNTER s !! k.
Proof.
  destruct (gateway_paths data s)
    as (evs & _ & [(E & _ & _ & -> & _) | [(h & E & Hk & _ & _ & -> & _)
                  | (h & E & Hk & -> & _)]]).
  - rewrite bool_decide_false; [reflexivity|]. intros [? _]. congruence.
  - rewrite bool_decide_false; [reflexivity|].
    intros (Ek & Hn & _). congruence.
  - destruct (decide (h = "chat")) as [->|Hh].
    + rewrite bool_decide_false; [reflexivity|].
      intros (Ek & _ & Hc). congruence.
    + destruct (decide (h = k)) as [->|Hne].
      * rewrite lookup_insert_eq. by rewrite bool_decide_true.
      * rewrite lookup_insert_ne by done.
        rewrite bool_decide_false; [reflexivity|]. intros [? _]. congruence.
Qed.

(** X12. A counter never decreases: over any sequence of requests the
    counter of an identifier stays at least what it was, so an identifier
    that reached the threshold stays at or above it. *)
Theorem counters_never_decrease requests s k n :
  HASH_COUNTER s !! k = Some n ->
  exists n', HASH_COUNTER (serve requests s).1 !! k = Some n' /\ n <= n'.
Proof.
  revert s n. induction requests as [|data rest IH]; intros s n Hk.
  - exists n. split; [exact Hk | lia].
  - rewrite gateway_serve_cons. cbn [fst].
    destruct (counter_step data s k n Hk) as (n1 & H1 & Hn1).
    destruct (IH _ _ H1) as (n2 & H2 & Hn2).
    exists n2. split; [exact H2 | lia].
Qed.



(** X15. Once [create_and_save_routine] has returned with the identifier
    among the routine manager's hashes, the next request for it goes to the
    routine manager and not to the model handler, and is no longer counted. *)
Theorem saved_routine_takes_over data data' h s known :
  protocolHash data = Some h -> h ∉ KNOWN s -> h <> "chat" ->
  default 0 (HASH_COUNTER s !! h) + 1 >= TRIGGER_NUM_CALLS ->
  programmer h (KNOWN s) = (known, Return tt) -> h ∈ known ->
  protocolHash data' = Some h ->
  let s1 := (main data s).1 in
  main data' s1 = (log (ECall data') (log ERoutines s1), Return (routine_manager data'))
  /\ HASH_COUNTER (main data' s1).1 = HASH_COUNTER s1.
Proof.
  intros E Hk Hh Hn Hp Hin E' s1.
  assert (Hk1 : h ∈ KNOWN s1).
  { unfold s1. rewrite (main_at_threshold data h s E Hk Hh Hn), Hp. exact Hin. }
  by rewrite (main_known data' h s1 E' Hk1).
Qed.

End Properties.

(** *** Worked examples *)

Lemma counters_never_decrease_witness :
  let S := example_services false in
  let data := mkData (Some "P2") "hi" in
  exists n', HASH_COUNTER (@serve S [data; data] (@main S data empty_store).1).1 !! "P2"
             = Some n' /\ 1 <= n'.
Proof.
  intros S data.
  exact (@counters_never_decrease S [data; data] (@main S data empty_store).1 "P2" 1
           eq_refl).
Defined.


Lemma saved_routine_takes_over_witness :
  let S := example_services true in
  let data := mkData (Some "P2") "hi" in
  let s := (@main S data empty_store).1 in
  let s1 := (@main S data s).1 in
  @main S data s1 = (log (ECall data) (log ERoutines s1), Return "routine: hi").
Proof.
  intros S data s s1.
  refine (proj1 (@saved_routine_takes_over S data data "P2" s ["P2"]
                   eq_refl _ _ _ eq_refl _ eq_refl)).
  - vm_compute. apply not_elem_of_nil.
  - discriminate.
  - vm_compute. discriminate.
  - apply list_elem_of_here.
Defined.

End GatewayExtras.

(** ** The orchestrator: the id-to-url mapping *)

Module OrchestratorProofs.
Import Orchestrator.

Lemma assign_dom ids mapping port :
  dom (assign ids mapping port).1 = list_to_set ids ∪ dom mapping.
Proof.
  revert mapping port. induction ids as [|id rest IH]; intros mapping port.
  - cbn. by rewrite union_empty_l_L.
  - cbn [assign list_to_set]. rewrite IH, dom_insert_L.
    rewrite (assoc_L (∪)). f_equal. apply (comm_L (∪)).
Qed.

Lemma assign_other ids mapping port id :
  id ∉ ids -> (assign ids mapping port).1 !! id = mapping !! id.
Proof.
  revert mapping port. induction ids as [|x rest IH]; intros mapping port Hn.
  - reflexivity.
  - apply not_elem_of_cons in Hn as [Hx Hn].
    cbn [assign]. rewrite IH by exact Hn.
    by apply lookup_insert_ne.
Qed.

(** The url of an id is the one of its last assignment in the loop. *)
Lemma assign_last ids mapping port (i : nat) id :
  ids !! i = Some id -> id ∉ drop (S i) ids ->
  (assign ids mapping port).1 !! id = Some (url (port + Z.of_nat i)).
Proof.
  revert mapping port i. induction ids as [|x rest IH]; intros mapping port i Hi Hn.
  - by rewrite lookup_nil in Hi.
  - destruct i as [|i]; cbn in Hi.
    + injection Hi as ->. cbn [assign]. cbn in Hn.
      rewrite assign_other by exact Hn.
      rewrite lookup_insert_eq. do 2 f_equal. lia.
    + cbn [assign]. rewrite (IH _ _ i Hi) by exact Hn. do 2 f_equal. lia.
Qed.

Lemma url_inj p q : url p = url q -> p = q.
Proof.
  unfold url. cbn. intros H. simplify_eq. by apply (inj pretty).
Qed.

Lemma occurs_append sep (a b : string) :
  occurs sep (a +:+ b) = occurs sep a || occurs sep b.
Proof.
  induction a as [|c a IH]; [reflexivity|].
  change (String c a +:+ b) with (String c (a +:+ b)).
  cbn [occurs]. rewrite IH. by rewrite orb_assoc.
Qed.

Lemma last_field_append sep (pre d : string) :
  occurs sep d = false -> last_field sep (pre +:+ String sep d) = d.
Proof.
  intros Hd. induction pre as [|c pre IH].
  - change (EmptyString +:+ String sep d) with (String sep d).
    cbn [last_field]. rewrite Hd. by rewrite bool_decide_true.
  - change (String c pre +:+ String sep d) with (String c (pre +:+ String sep d)).
    cbn [last_field]. rewrite occurs_append. cbn [occurs].
    rewrite (bool_decide_true (sep = sep)) by reflexivity.
    rewrite orb_true_r. exact IH.
Qed.

Lemma pretty_N_char_no_colon x : pretty_N_char x <> ":"%char.
Proof. unfold pretty_N_char. by repeat case_match. Qed.

Lemma pretty_N_go_no_colon x s :
  occurs ":" s = false -> occurs ":" (pretty_N_go x s) = false.
Proof.
  revert s. induction (N.lt_wf_0 x) as [x _ IH]; intros s Hs.
  assert (x = 0 \/ 0 < x)%N as [->|Hx] by lia.
  - by rewrite pretty_N_go_0.
  - rewrite pretty_N_go_step by done. apply IH; [by apply N.div_lt|].
    cbn [occurs]. rewrite Hs, orb_false_r.
    apply bool_decide_eq_false, pretty_N_char_no_colon.
Qed.

Lemma pretty_N_no_colon (x : N) : occurs ":" (pretty x) = false.
Proof.
  unfold pretty, pretty_N. case_decide; [reflexivity|].
  by apply pretty_N_go_no_colon.
Qed.

Lemma pretty_Z_no_colon (p : Z) : occurs ":" (pretty p) = false.
Proof.
  destruct p as [|x|x]; unfold pretty, pretty_Z; [reflexivity| |].
  - apply pretty_N_no_colon.
  - rewrite occurs_append. cbn [occurs orb]. rewrite bool_decide_false by discriminate.
    apply pretty_N_no_colon.
Qed.

Lemma last_field_url p : last_field ":" (url p) = pretty p.
Proof.
  change (url p) with ("http://localhost" +:+ String ":" (pretty p)).
  apply last_field_append, pretty_Z_no_colon.
Qed.

(** The value of the mapping at an id, by the last loop that assigns it. *)
Lemma mapping_lookup config id :
  let mapping := create_id_to_url_mappings config in
  (forall i : nat, protocolDbs config !! i = Some id ->
     id ∉ drop (S i) (protocolDbs config) ->
     mapping !! id = Some (url (startingPorts_protocolDb config + Z.of_nat i)))
  /\ (forall i : nat, servers config !! i = Some id ->
        id ∉ drop (S i) (servers config) -> id ∉ protocolDbs config ->
        mapping !! id = Some (url (startingPorts_server config + Z.of_nat i)))
  /\ (forall i : nat, users config !! i = Some id ->
        id ∉ drop (S i) (users config) -> id ∉ servers config ->
        id ∉ protocolDbs config ->
        mapping !! id = Some (url (startingPorts_user config + Z.of_nat i))).
Proof.
  unfold create_id_to_url_mappings.
  destruct (assign (users config) ∅ (startingPorts_user config)) as [m1 p1] eqn:E1.
  destruct (assign (servers config) m1 (startingPorts_server config)) as [m2 p2] eqn:E2.
  destruct (assign (protocolDbs config) m2 (startingPorts_protocolDb config))
    as [m3 p3] eqn:E3.
  assert (H1 : m1 = (assign (users config) ∅ (startingPorts_user config)).1)
    by (by rewrite E1).
  assert (H2 : m2 = (assign (servers config) m1 (startingPorts_server config)).1)
    by (by rewrite E2).
  assert (H3 : m3 = (assign (protocolDbs config) m2 (startingPorts_protocolDb config)).1)
    by (by rewrite E3).
  cbn zeta. split; [|split].
  - intros i Hi Hn. rewrite H3. by apply assign_last.
  - intros i Hi Hn Hd. rewrite H3, assign_other by exact Hd.
    rewrite H2. by apply assign_last.
  - intros i Hi Hn Hs Hd. rewrite H3, assign_other by exact Hd.
    rewrite H2, assign_other by exact Hs. rewrite H1. by apply assign_last.
Qed.

Lemma mapping_dom config :
  dom (create_id_to_url_mappings config)
  = list_to_set (users config ++ servers config ++ protocolDbs config).
Proof.
  unfold create_id_to_url_mappings.
  destruct (assign (users config) ∅ (startingPorts_user config)) as [m1 p1] eqn:E1.
  destruct (assign (servers config) m1 (startingPorts_server config)) as [m2 p2] eqn:E2.
  destruct (assign (protocolDbs config) m2 (startingPorts_protocolDb config))
    as [m3 p3] eqn:E3.
  replace m3 with (assign (protocolDbs config) m2 (startingPorts_protocolDb config)).1
    by (by rewrite E3).
  replace m2 with (assign (servers config) m1 (startingPorts_server config)).1
    by (by rewrite E2).
  replace m1 with (assign (users config) ∅ (startingPorts_user config)).1
    by (by rewrite E1).
  rewrite !assign_dom, !list_to_set_app_L, dom_empty_L.
  apply set_eq. intros x. rewrite !elem_of_union, elem_of_empty. tauto.
Qed.

Lemma mapping_positions config (i : nat) id :
  NoDup (users config ++ servers config ++ protocolDbs config) ->
  let mapping := create_id_to_url_mappings config in
  (users config !! i = Some id ->
     mapping !! id = Some (url (startingPorts_user config + Z.of_nat i)))
  /\ (servers config !! i = Some id ->
        mapping !! id = Some (url (startingPorts_server config + Z.of_nat i)))
  /\ (protocolDbs config !! i = Some id ->
        mapping !! id = Some (url (startingPorts_protocolDb config + Z.of_nat i))).
Proof.
  intros Hnd mapping.
  apply NoDup_app in Hnd as (Hu & Hus & Hsd).
  apply NoDup_app in Hsd as (Hs & Hsd & Hd).
  assert (Hdrop : forall (l : list string) j x,
            NoDup l -> l !! j = Some x -> x ∉ drop (S j) l).
  { intros l j x Hl Hj Hin.
    apply list_elem_of_lookup in Hin as [k Hk]. rewrite lookup_drop in Hk.
    pose proof (NoDup_lookup l j (S j + k) x Hl Hj Hk). lia. }
  destruct (mapping_lookup config id) as (Md & Ms & Mu).
  split; [|split]; intros Hi.
  - apply (Mu i Hi); [by apply Hdrop | |].
    + intros Hin. apply (Hus id); [by eapply list_elem_of_lookup_2 | set_solver].
    + intros Hin. apply (Hus id); [by eapply list_elem_of_lookup_2 | set_solver].
  - apply (Ms i Hi); [by apply Hdrop |].
    intros Hin. apply (Hsd id); [by eapply list_elem_of_lookup_2 | exact Hin].
  - apply (Md i Hi). by apply Hdrop.
Qed.

Lemma assign_values ids mapping port :
  (forall k v, mapping !! k = Some v -> exists p, v = url p) ->
  forall k v, (assign ids mapping port).1 !! k = Some v -> exists p, v = url p.
Proof.
  revert mapping port. induction ids as [|x rest IH]; intros mapping port Hm; [exact Hm|].
  cbn [assign]. apply IH. intros k v.
  destruct (decide (x = k)) as [->|Hne].
  - rewrite lookup_insert_eq. intros [= <-]. eauto.
  - rewrite lookup_insert_ne by done. apply Hm.
Qed.

Lemma mapping_values config k v :
  create_id_to_url_mappings config !! k = Some v -> exists p, v = url p.
Proof.
  unfold create_id_to_url_mappings.
  destruct (assign (users config) ∅ (startingPorts_user config)) as [m1 p1] eqn:E1.
  destruct (assign (servers config) m1 (startingPorts_server config)) as [m2 p2] eqn:E2.
  destruct (assign (protocolDbs config) m2 (startingPorts_protocolDb config))
    as [m3 p3] eqn:E3.
  replace m3 with (assign (protocolDbs config) m2 (startingPorts_protocolDb config)).1
    by (by rewrite E3).
  replace m2 with (assign (servers config) m1 (startingPorts_server config)).1
    by (by rewrite E2).
  replace m1 with (assign (users config) ∅ (startingPorts_user config)).1
    by (by rewrite E1).
  revert k v. repeat apply assign_values. intros k v Hk. by rewrite lookup_empty in Hk.
Qed.

(** X16. The mapping has an entry for every user, server and protocol
    database of the configuration, and for nothing else. *)
Theorem every_node_is_mapped config id :
  is_Some (create_id_to_url_mappings config !! id)
  <-> id ∈ users config \/ id ∈ servers config \/ id ∈ protocolDbs config.
Proof.
  rewrite <- elem_of_dom, mapping_dom, elem_of_list_to_set, !elem_of_app. tauto.
Qed.

(** X17. With ids that are pairwise distinct, the node at position [i] of
    its group is mapped to the url of that group's starting port plus [i]. *)
Theorem ports_follow_positions config (i : nat) id :
  NoDup (users config ++ servers config ++ protocolDbs config) ->
  let mapping := create_id_to_url_mappings config in
  (users config !! i = Some id ->
     mapping !! id = Some (url (startingPorts_user config + Z.of_nat i)))
  /\ (servers config !! i = Some id ->
        mapping !! id = Some (url (startingPorts_server config + Z.of_nat i)))
  /\ (protocolDbs config !! i = Some id ->
        mapping !! id = Some (url (startingPorts_protocolDb config + Z.of_nat i))).
Proof. apply mapping_positions. Qed.

(** X18. An id that occurs in several groups, or several times among the
    protocol databases, keeps the url assigned last: a protocol database
    overrides a server and a user of the same id, a server overrides a user,
    and a later position overrides an earlier one. *)
Theorem later_assignments_override config id (i j : nat) :
  let mapping := create_id_to_url_mappings config in
  (protocolDbs config !! i = Some id -> id ∉ drop (S i) (protocolDbs config) ->
     mapping !! id = Some (url (startingPorts_protocolDb config + Z.of_nat i)))
  /\ (servers config !! j = Some id -> id ∉ drop (S j) (servers config) ->
        id ∉ protocolDbs config ->
        mapping !! id = Some (url (startingPorts_server config + Z.of_nat j))).
Proof.
  intros mapping. destruct (mapping_lookup config id) as (Md & Ms & _).
  split; [apply Md | apply Ms].
Qed.

(** X19. With distinct ids and starting ports whose ranges do not overlap,
    no two nodes are mapped to the same url. *)
Theorem distinct_nodes_distinct_urls config a b u :
  NoDup (users config ++ servers config ++ protocolDbs config) ->
  let pu := startingPorts_user config in
  let ps := startingPorts_server config in
  let pd := startingPorts_protocolDb config in
  let nu := Z.of_nat (length (users config)) in
  let ns := Z.of_nat (length (servers config)) in
  let nd := Z.of_nat (length (protocolDbs config)) in
  (pu + nu <= ps \/ ps + ns <= pu) ->
  (pu + nu <= pd \/ pd + nd <= pu) ->
  (ps + ns <= pd \/ pd + nd <= ps) ->
  create_id_to_url_mappings config !! a = Some u ->
  create_id_to_url_mappings config !! b = Some u ->
  a = b.
Proof.
  intros Hnd pu ps pd nu ns nd Hus Hud Hsd Ha Hb.
  assert (Hwhere : forall x v,
    create_id_to_url_mappings config !! x = Some v ->
    exists (g : nat) (i : nat) base (l : list string),
      l !! i = Some x /\ v = url (base + Z.of_nat i)
      /\ ((g = 0%nat /\ base = pu /\ l = users config)
          \/ (g = 1%nat /\ base = ps /\ l = servers config)
          \/ (g = 2%nat /\ base = pd /\ l = protocolDbs config))).
  { intros x v Hx.
    assert (Hin : x ∈ dom (create_id_to_url_mappings config))
      by (apply elem_of_dom; eauto).
    rewrite mapping_dom in Hin.
    apply elem_of_list_to_set in Hin.
    apply elem_of_app in Hin as [Hin | Hin];
      [|apply elem_of_app in Hin as [Hin | Hin]];
      apply list_elem_of_lookup in Hin as [i Hi];
      destruct (mapping_positions config i x Hnd) as (Pu & Ps & Pd).
    - exists 0%nat, i, pu, (users config). rewrite (Pu Hi) in Hx.
      split; [exact Hi|]. split; [by injection Hx|]. by left.
    - exists 1%nat, i, ps, (servers config). rewrite (Ps Hi) in Hx.
      split; [exact Hi|]. split; [by injection Hx|]. right. by left.
    - exists 2%nat, i, pd, (protocolDbs config). rewrite (Pd Hi) in Hx.
      split; [exact Hi|]. split; [by injection Hx|]. right. by right. }
  destruct (Hwhere a u Ha) as (ga & ia & ba & la & Hia & Eua & Hga).
  destruct (Hwhere b u Hb) as (gb & ib & bb & lb & Hib & Eub & Hgb).
  assert (Hp : ba + Z.of_nat ia = bb + Z.of_nat ib) by (apply url_inj; congruence).
  pose proof (lookup_lt_Some _ _ _ Hia) as Hla.
  pose proof (lookup_lt_Some _ _ _ Hib) as Hlb.
  destruct Hga as [(-> & -> & ->) | [(-> & -> & ->) | (-> & -> & ->)]];
    destruct Hgb as [(-> & -> & ->) | [(-> & -> & ->) | (-> & -> & ->)]];
    try (assert (ia = ib) as -> by lia; congruence);
    unfold nu, ns, nd in *; lia.
Qed.

(** X20. The port the orchestrator launches a node on, the text after the
    last colon of the node's url, is the decimal form of the port assigned to
    the node; for an id without an entry the lookup raises [KeyError]. *)
Theorem port_of_mapped_node config id :
  let mapping := create_id_to_url_mappings config in
  (forall p, mapping !! id = Some (url p) -> port_of mapping id = Return (pretty p))
  /\ (mapping !! id = None -> port_of mapping id = Raise (KeyError id))
  /\ (forall u, mapping !! id = Some u -> exists p, u = url p).
Proof.
  intros mapping. split; [|split].
  - intros p Hp. unfold port_of. by rewrite Hp, last_field_url.
  - intros Hn. unfold port_of. by rewrite Hn.
  - intros u. apply mapping_values.
Qed.

(** *** Worked examples *)

Lemma example_config_distinct :
  NoDup (users example_config ++ servers example_config ++ protocolDbs example_config).
Proof. refine (bool_decide_unpack _ _). vm_compute. exact I. Defined.

Lemma ports_follow_positions_witness :
  create_id_to_url_mappings example_config !! "bob" = Some (url 5001).
Proof.
  exact (proj1 (ports_follow_positions example_config 1 "bob" example_config_distinct)
           eq_refl).
Defined.

Lemma later_assignments_override_witness :
  let config := mkConfig ["node"] ["node"] ["db"; "db"] 5000 6000 7000 in
  create_id_to_url_mappings config !! "db" = Some (url 7001)
  /\ create_id_to_url_mappings config !! "node" = Some (url 6000).
Proof.
  intros config.
  destruct (later_assignments_override config "db" 1 0) as [Hd _].
  destruct (later_assignments_override config "node" 0 0) as [_ Hs].
  split.
  - apply Hd; [reflexivity | vm_compute; apply not_elem_of_nil].
  - apply Hs; [reflexivity | vm_compute; apply not_elem_of_nil |].
    intros Hin. apply list_elem_of_In in Hin. vm_compute in Hin.
    destruct Hin as [H | [H | []]]; discriminate.
Defined.

Lemma distinct_nodes_distinct_urls_witness :
  create_id_to_url_mappings example_config !! "server1" = Some (url 6000)
  /\ "server1" = "server1".
Proof.
  split; [reflexivity|].
  refine (distinct_nodes_distinct_urls example_config "server1" "server1" (url 6000)
            example_config_distinct _ _ _ eq_refl eq_refl);
    vm_compute; left; discriminate.
Defined.

Lemma port_of_mapped_node_witness :
  port_of (create_id_to_url_mappings example_config) "db2" = Return (pretty 7001).
Proof.
  exact (proj1 (port_of_mapped_node example_config "db2") 7001 eq_refl).
Defined.

End OrchestratorProofs.

(** ** The function-calling loop: what [execute] and its callers do *)

Module FunctionCallingProofs.
Import FunctionCalling.

Section Facts.
Context `{Txt : Text} `{Env : Environment}.
Local Open Scope py_scope.

Lemma subscript_invocation_tool n i :
  subscript (invocation n i) "tool" = Ok (JString n).
Proof. reflexivity. Qed.

Lemma subscript_invocation_input n i :
  subscript (invocation n i) "tool_input" = Ok i.
Proof. reflexivity. Qed.

(** An entry of the tools map is a tool of the list, under its lowered
    name. *)
Lemma tools_map_of_lookup ts key t :
  tools_map_of ts !! key = Some t -> t ∈ ts /\ lower (name t) = key.
Proof.
  unfold tools_map_of.
  assert (H : forall (mp : gmap string Tool),
            foldl (fun mp t => <[lower (name t) := t]> mp) mp ts !! key = Some t ->
            (t ∈ ts /\ lower (name t) = key) \/ mp !! key = Some t).
  { induction ts as [|x ts IH]; intros mp Hl; [by right|].
    cbn [foldl] in Hl. destruct (IH _ Hl) as [[Hin Hk]|Hm].
    - left. split; [by right | exact Hk].
    - destruct (decide (lower (name x) = key)) as [Hx|Hx].
      + rewrite Hx, lookup_insert_eq in Hm. injection Hm as ->.
        left. split; [by left | exact Hx].
      + rewrite lookup_insert_ne in Hm by exact Hx. by right. }
  intros Hl. destruct (H ∅ Hl) as [?|Hm]; [done|]. by rewrite lookup_empty in Hm.
Qed.

(** One iteration of the loop calls at most one tool, one of the map. *)
Lemma execute_one_calls tools_map tool msgs calls calls' r :
  execute_one tools_map tool msgs calls = (calls', r) ->
  calls' = calls
  \/ exists key kwargs t, calls' = calls ++ [ToolCall key kwargs]
       /\ tools_map !! key = Some t.
Proof.
  unfold execute_one, and_then, lift, pure, throw, call_tool.
  destruct (subscript tool "tool") as [tool_name|e]; [|intros [= <- _]; by left].
  destruct (lowered tool_name) as [key|e]; [|intros [= <- _]; by left].
  case_bool_decide.
  { destruct (subscript tool "tool_input"); intros [= <- _]; by left. }
  case_bool_decide; [|intros [= <- _]; by left].
  destruct (subscript tool "tool_input") as [tool_input|e]; [|intros [= <- _]; by left].
  destruct (tools_map !! key) as [t|] eqn:Ht; [|intros [= <- _]; by left].
  destruct tool_input as [| | | | |members]; try (intros [= <- _]; by left).
  destruct (call_tool_for_toolformer t members); intros [= <- _];
    right; by exists key, members, t.
Qed.

Lemma execute_loop_calls tools_map invoked fa msgs calls calls' r :
  execute_loop tools_map invoked fa msgs calls = (calls', r) ->
  exists new, calls' = calls ++ new /\ Forall (from_map tools_map) new
    /\ (length new <= length invoked)%nat.
Proof.
  revert fa msgs calls. induction invoked as [|tool rest IH]; intros fa msgs calls.
  - cbn. unfold pure. intros [= <- _]. exists []. rewrite app_nil_r.
    repeat split; [constructor | cbn; lia].
  - cbn [execute_loop]. unfold and_then at 1.
    destruct (execute_one tools_map tool msgs calls) as [calls1 r1] eqn:E1.
    destruct (execute_one_calls _ _ _ _ _ _ E1) as [-> | (key & kw & t & -> & Ht)].
    + destruct r1 as [msgs'|e].
      * intros H. destruct (IH _ _ _ H) as (new & -> & Hf & Hl).
        exists new. repeat split; [exact Hf | cbn; lia].
      * intros [= <- _]. exists []. rewrite app_nil_r.
        repeat split; [constructor | cbn; lia].
    + destruct r1 as [msgs'|e].
      * intros H. destruct (IH _ _ _ H) as (new & -> & Hf & Hl).
        exists (ToolCall key kw :: new). rewrite <- app_assoc.
        repeat split; [constructor; [by exists key, kw, t | exact Hf] | cbn; lia].
      * intros [= <- _]. exists [ToolCall key kw].
        repeat split; [repeat constructor; by exists key, kw, t | cbn; lia].
Qed.

Lemma execute_loop_final tools_map invoked fa msgs calls calls' fa' msgs' :
  execute_loop tools_map invoked fa msgs calls = (calls', Ok (fa', msgs')) ->
  fa' = match invoked with [] => fa | _ => Some false end.
Proof.
  revert fa msgs calls. induction invoked as [|tool rest IH]; intros fa msgs calls.
  - cbn. unfold pure. by intros [= _ <- _].
  - cbn [execute_loop]. unfold and_then.
    destruct (execute_one tools_map tool msgs calls) as [c1 [m1|e1]]; [|discriminate].
    intros H. rewrite (IH _ _ _ H). by destruct rest.
Qed.

(** The loop and the return after it: only tools of the map are called, at
    most one for each invocation; the answer is never final; and without
    invocations the return raises. *)
Lemma execute_all_effect tools_map invoked calls calls' r :
  execute_all tools_map invoked calls = (calls', r) ->
  (exists new, calls' = calls ++ new /\ Forall (from_map tools_map) new
     /\ (length new <= length invoked)%nat)
  /\ (forall out, r <> Ok (true, out))
  /\ (invoked = [] -> r = Err (UnboundLocalError "final_answer")).
Proof.
  unfold execute_all, and_then.
  destruct (execute_loop tools_map invoked None [] calls) as [calls1 r1] eqn:E.
  pose proof (execute_loop_calls _ _ _ _ _ _ _ E) as Hc.
  destruct r1 as [[fa msgs]|e].
  - pose proof (execute_loop_final _ _ _ _ _ _ _ _ E) as ->. cbn [fst snd].
    destruct invoked as [|tool rest]; unfold throw, pure; intros [= <- <-].
    + split; [exact Hc|]. split; [discriminate | reflexivity].
    + split; [exact Hc|]. split; [discriminate | discriminate].
  - intros [= <- <-]. split; [exact Hc|]. split; [discriminate|].
    intros ->. cbn in E. discriminate.
Qed.

Lemma tools_map_of_self self :
  (match tools self with Some ts => tools_map_of ts | None => ∅ end)
  = default ∅ (tools_map_of <$> tools self).
Proof. by destruct (tools self). Qed.

(** [execute] is the loop unless there is one invocation, a conversational
    one. *)
Lemma execute_cases self invoked calls :
  (exists tool s, invoked = [tool] /\ subscript tool "tool" = Ok (JString s)
     /\ lower s = "conversationalresponse"
     /\ execute self invoked calls
        = (calls,
           match subscript tool "tool_input" with
           | Ok tool_input =>
               match subscript tool_input "response" with
               | Ok response => Ok (true, [response])
               | Err e => Err e
               end
           | Err e => Err e
           end))
  \/ (exists tool e, invoked = [tool] /\ execute self invoked calls = (calls, Err e))
  \/ execute self invoked calls
     = execute_all (default ∅ (tools_map_of <$> tools self)) invoked calls.
Proof.
  unfold execute. rewrite tools_map_of_self.
  destruct invoked as [|tool [|tool2 rest]]; [by right; right| |by right; right].
  unfold and_then, lift, pure.
  destruct (subscript tool "tool") as [tool_name|e] eqn:Et;
    [|right; left; by exists tool, e].
  destruct tool_name as [| | |s| |]; cbn [lowered];
    try (right; left; by exists tool, AttributeError).
  case_bool_decide as Hk; [|by right; right].
  left. exists tool, s. repeat split; try done.
  destruct (subscript tool "tool_input") as [tool_input|e]; [|reflexivity].
  by destruct (subscript tool_input "response").
Qed.

Lemma execute_one_conversational tools_map tool msgs calls :
  conversational tool ->
  execute_one tools_map tool msgs calls = (calls, Ok msgs).
Proof.
  intros (s & Es & Hs). unfold execute_one, and_then, lift, pure.
  rewrite Es. cbn [lowered]. rewrite Hs.
  rewrite bool_decide_false by discriminate.
  by rewrite bool_decide_false by (intros H; by apply H).
Qed.

Lemma execute_loop_conversational tools_map invoked fa msgs calls :
  Forall conversational invoked ->
  execute_loop tools_map invoked fa msgs calls
  = (calls, Ok (match invoked with [] => fa | _ => Some false end, msgs)).
Proof.
  intros Hf. revert fa. induction Hf as [|tool rest Ht _ IH]; intros fa; [reflexivity|].
  cbn [execute_loop]. unfold and_then.
  rewrite (execute_one_conversational _ _ _ _ Ht), IH. by destruct rest.
Qed.

Lemma format_all_valid {A} (piece : Message -> Result A) msgs acc :
  Forall (fun msg => exists p, piece msg = Ok p) msgs ->
  exists l, format_all piece msgs acc = Ok l.
Proof.
  intros Hf. revert acc. induction Hf as [|msg rest [p Hp] _ IH]; intros acc.
  - by exists acc.
  - cbn [format_all]. rewrite Hp. apply IH.
Qed.

Lemma format_all_invalid {A} (piece : Message -> Result A) pre msg post acc e :
  Forall (fun msg => exists p, piece msg = Ok p) pre -> piece msg = Err e ->
  format_all piece (pre ++ msg :: post) acc = Err e.
Proof.
  intros Hf He. revert acc. induction Hf as [|x rest [p Hp] _ IH]; intros acc.
  - cbn. by rewrite He.
  - cbn [app format_all]. rewrite Hp. apply IH.
Qed.

Lemma pieces_of_valid msg :
  valid_type msg ->
  (exists p, llama3_piece msg = Ok p) /\ (exists p, sncloud_piece msg = Ok p).
Proof.
  unfold llama3_piece, sncloud_piece. intros [H | [H | [H | H]]];
    repeat (case_bool_decide; [split; eauto|]); congruence.
Qed.

Lemma pieces_of_invalid msg :
  ~ valid_type msg ->
  llama3_piece msg = Err (ValueError ("Invalid message type: " +:+ type msg))
  /\ sncloud_piece msg = Err (ValueError ("Invalid message type: " +:+ type msg)).
Proof.
  unfold valid_type, llama3_piece, sncloud_piece. intros H.
  repeat (case_bool_decide; [tauto|]). by split.
Qed.


Lemma plain_answer_is_final_aux self input_string calls :
  lower "ConversationalResponse" = "conversationalresponse" ->
  search_tool_calls input_string = None ->
  execute self (json_finder input_string) calls
  = (calls, Ok (true, [JString input_string])).
Proof.
  intros Hl Hs. unfold json_finder. rewrite Hs.
  unfold execute, and_then, lift, pure.
  rewrite subscript_invocation_tool. cbn [lowered]. rewrite Hl.
  rewrite bool_decide_true by reflexivity.
  by rewrite subscript_invocation_input.
Qed.

End Facts.

(** *** Properties *)

Section Properties.
Context `{Txt : Text} `{Env : Environment}.

(** X21. [execute] on an empty list of invocations raises
    [UnboundLocalError]: [final_answer] is bound only inside the loop.  This
    is what happens to a model answer whose [<ToolCalls>] section holds an
    empty JSON list. *)
Theorem empty_tool_calls_raise self input_string section bracketed calls :
  search_tool_calls input_string = Some section ->
  search_list section = Some bracketed ->
  json_loads bracketed = inl [] ->
  json_finder input_string = []
  /\ execute self (json_finder input_string) calls
     = (calls, Err (UnboundLocalError "final_answer")).
Proof.
  intros H1 H2 H3.
  assert (E : json_finder input_string = [])
    by (unfold json_finder; by rewrite H1, H2, H3).
  rewrite E. split; [reflexivity|]. by destruct (tools self).
Qed.

(** X22. A model answer without a [<ToolCalls>] section is the final answer,
    returned as it is, and no tool is called. *)
Theorem plain_answer_is_final self input_string calls :
  lower "ConversationalResponse" = "conversationalresponse" ->
  search_tool_calls input_string = None ->
  execute self (json_finder input_string) calls
  = (calls, Ok (true, [JString input_string])).
Proof.
  apply plain_answer_is_final_aux.
Qed.

(** X23. A [<ToolCalls>] section without a bracketed list, or with one that
    [json.loads] rejects, is not an error of [execute]: the answer is not
    final and the only message reports the invocation error. *)
Theorem malformed_tool_calls_are_reported self input_string section message calls :
  lower "InvocationError" = "invocationerror" ->
  search_tool_calls input_string = Some section ->
  match search_list section with
  | Some bracketed => json_loads bracketed = inr message
  | None => message = "Could not find JSON object in the <ToolCalls> section"
  end ->
  execute self (json_finder input_string) calls
  = (calls, Ok (false, [JString ("Tool invocation error: " +:+ message)])).
Proof.
  intros Hl Hs Hm.
  assert (E : json_finder input_string = [invocation "InvocationError" (JString message)]).
  { unfold json_finder. rewrite Hs.
    destruct (search_list section); [by rewrite Hm | by rewrite Hm]. }
  rewrite E. unfold execute, and_then, lift, pure.
  rewrite subscript_invocation_tool. cbn [lowered]. rewrite Hl.
  rewrite bool_decide_false by discriminate.
  unfold execute_all. cbn [execute_loop]. unfold execute_one, and_then, lift, pure.
  rewrite subscript_invocation_tool. cbn [lowered]. rewrite Hl.
  rewrite bool_decide_true by reflexivity.
  by rewrite subscript_invocation_input.
Qed.

(** X24. [execute] calls only tools of [self], each under its lowered name,
    and at most one for each invocation; without tools it calls nothing. *)
Theorem only_registered_tools_are_called self invoked calls :
  exists new, (execute self invoked calls).1 = calls ++ new
    /\ (length new <= length invoked)%nat
    /\ Forall (fun c => exists key kwargs t ts,
                 c = ToolCall key kwargs /\ tools self = Some ts
                 /\ t ∈ ts /\ lower (name t) = key) new
    /\ (tools self = None -> new = []).
Proof.
  assert (Hmap : forall c,
            from_map (default ∅ (tools_map_of <$> tools self)) c ->
            exists key kwargs t ts,
              c = ToolCall key kwargs /\ tools self = Some ts
              /\ t ∈ ts /\ lower (name t) = key).
  { intros c (key & kw & t & -> & Ht).
    destruct (tools self) as [ts|]; cbn in Ht; [|by rewrite lookup_empty in Ht].
    destruct (tools_map_of_lookup ts key t Ht) as [Hin Hk].
    by exists key, kw, t, ts. }
  destruct (execute_cases self invoked calls)
    as [(tool & s & _ & _ & _ & E) | [(tool & e & _ & E) | E]]; rewrite E.
  - exists []. rewrite app_nil_r. repeat split; [cbn; lia | constructor].
  - exists []. rewrite app_nil_r. repeat split; [cbn; lia | constructor].
  - destruct (execute_all (default ∅ (tools_map_of <$> tools self)) invoked calls)
      as [calls' r] eqn:Ea.
    destruct (execute_all_effect _ _ _ _ _ Ea) as ((new & -> & Hf & Hl) & _).
    exists new. cbn [fst]. repeat split; [exact Hl | |].
    + eapply Forall_impl; [exact Hf | exact Hmap].
    + intros Hn. destruct new as [|c new]; [reflexivity|].
      apply Forall_cons in Hf as [Hc _].
      destruct (Hmap c Hc) as (? & ? & ? & ? & _ & Hts & _). congruence.
Qed.

(** X25. [execute] marks an answer as final only for a single invocation, a
    conversational one; the list returned is then its [response] alone, and
    no tool has been called. *)
Theorem final_only_for_single_conversational self invoked calls calls' out :
  execute self invoked calls = (calls', Ok (true, out)) ->
  exists tool tool_input response,
    invoked = [tool] /\ conversational tool
    /\ subscript tool "tool_input" = Ok tool_input
    /\ subscript tool_input "response" = Ok response
    /\ out = [response] /\ calls' = calls.
Proof.
  intros H.
  destruct (execute_cases self invoked calls)
    as [(tool & s & -> & Et & Hs & E) | [(tool & e & _ & E) | E]]; rewrite E in H.
  - destruct (subscript tool "tool_input") as [tool_input|] eqn:Ei; [|discriminate].
    destruct (subscript tool_input "response") as [response|] eqn:Er; [|discriminate].
    injection H as <- <-. exists tool, tool_input, response.
    repeat split; try done. by exists s.
  - discriminate.
  - destruct (execute_all_effect _ _ _ _ _ H) as (_ & Hnf & _). by destruct (Hnf out).
Qed.

(** X26. Conversational invocations are dropped when there are several of
    them: the answer is not final, there is no message, and nothing is
    called. *)
Theorem several_conversational_responses_are_dropped self invoked calls :
  Forall conversational invoked -> (2 <= length invoked)%nat ->
  execute self invoked calls = (calls, Ok (false, [])).
Proof.
  intros Hf Hl.
  destruct invoked as [|t1 [|t2 rest]]; cbn in Hl; [lia | lia |].
  unfold execute, execute_all, and_then.
  by rewrite (execute_loop_conversational _ _ _ _ _ Hf).
Qed.

(** X27. The two prompt converters accept the same histories: both succeed
    when every message type is one of system, human, ai and tool, and both
    raise the same [ValueError], naming the first other type, when not. *)
Theorem converters_accept_the_same_histories msgs :
  (Forall valid_type msgs ->
     (exists prompt, msgs_to_llama3_str msgs = Ok prompt)
     /\ (exists prompt, msgs_to_sncloud msgs = Ok prompt))
  /\ (forall pre msg post,
        msgs = pre ++ msg :: post -> Forall valid_type pre -> ~ valid_type msg ->
        msgs_to_llama3_str msgs
        = Err (ValueError ("Invalid message type: " +:+ type msg))
        /\ msgs_to_sncloud msgs
           = Err (ValueError ("Invalid message type: " +:+ type msg))).
Proof.
  split.
  - intros Hv. unfold msgs_to_llama3_str, msgs_to_sncloud.
    destruct (format_all_valid llama3_piece msgs []) as [l ->].
    { eapply Forall_impl; [exact Hv|]. intros m Hm. apply (pieces_of_valid m Hm). }
    destruct (format_all_valid sncloud_piece msgs []) as [l' ->].
    { eapply Forall_impl; [exact Hv|]. intros m Hm. apply (pieces_of_valid m Hm). }
    split; eauto.
  - intros pre msg post -> Hv Hi.
    destruct (pieces_of_invalid msg Hi) as [El Es].
    assert (Hvl : Forall (fun m => exists p, llama3_piece m = Ok p) pre)
      by (eapply Forall_impl; [exact Hv|]; intros m Hm; apply (pieces_of_valid m Hm)).
    assert (Hvs : Forall (fun m => exists p, sncloud_piece m = Ok p) pre)
      by (eapply Forall_impl; [exact Hv|]; intros m Hm; apply (pieces_of_valid m Hm)).
    unfold msgs_to_llama3_str, msgs_to_sncloud.
    rewrite (format_all_invalid llama3_piece pre msg post [] _ Hvl El).
    by rewrite (format_all_invalid sncloud_piece pre msg post [] _ Hvs Es).
Qed.


(** X29. When the model's first answer has no [<ToolCalls>] section,
    [function_call_llm] returns that answer with the usage after exactly one
    invocation of the model, whatever [max_it] above 0. *)
Theorem plain_first_answer_returns_at_once self ts query max_it prompt calls :
  lower "ConversationalResponse" = "conversationalresponse" ->
  tools self = Some ts -> 0 < max_it ->
  prompt_of self (format_prompt ts ++ [mkMessage "human" query]) = Ok prompt ->
  search_tool_calls (llm_invoke prompt) = None ->
  function_call_llm self query max_it calls
  = (calls ++ [ModelCall prompt],
     Ok (Some (JString (llm_invoke prompt), get_total_usage))).
Proof.
  intros Hl Et Hm Hp Hs. unfold function_call_llm. rewrite Et.
  destruct (Z.to_nat max_it) as [|n] eqn:En; [lia|].
  cbn [iterate]. unfold and_then at 1, lift. rewrite Hp.
  unfold and_then at 1, invoke. unfold and_then at 1.
  by rewrite (plain_answer_is_final_aux self _ _ Hl Hs).
Qed.

End Properties.

(** *** Worked examples *)

Lemma empty_tool_calls_raise_witness :
  let E := example_environment "<ToolCalls>[]</ToolCalls>" (Some (inl [])) in
  @execute example_text (mkLlm None "sncloud")
    (@json_finder E "<ToolCalls>[]</ToolCalls>") []
  = ([], Err (UnboundLocalError "final_answer")).
Proof.
  intros E.
  exact (proj2 (@empty_tool_calls_raise example_text E (mkLlm None "sncloud")
                  "<ToolCalls>[]</ToolCalls>" "[...]" "[...]" []
                  eq_refl eq_refl eq_refl)).
Defined.

Lemma plain_answer_is_final_witness :
  let E := example_environment "hello" None in
  @execute example_text (mkLlm (Some [example_tool]) "sncloud")
    (@json_finder E "hello") []
  = ([], Ok (true, [JString "hello"])).
Proof.
  intros E.
  exact (@plain_answer_is_final example_text E (mkLlm (Some [example_tool]) "sncloud")
           "hello" [] eq_refl eq_refl).
Defined.

Lemma malformed_tool_calls_are_reported_witness :
  let E := example_environment "x" (Some (inr "Expecting value")) in
  @execute example_text (mkLlm (Some [example_tool]) "sncloud")
    (@json_finder E "<ToolCalls>[oops]</ToolCalls>") []
  = ([], Ok (false, [JString "Tool invocation error: Expecting value"])).
Proof.
  intros E.
  exact (@malformed_tool_calls_are_reported example_text E
           (mkLlm (Some [example_tool]) "sncloud")
           "<ToolCalls>[oops]</ToolCalls>" "[...]" "Expecting value" []
           eq_refl eq_refl eq_refl).
Defined.

Lemma final_only_for_single_conversational_witness :
  let tool := invocation "ConversationalResponse"
                (JObject [("response", JString "hello")]) in
  exists tool' tool_input response,
    [tool] = [tool'] /\ @conversational example_text tool'
    /\ subscript tool' "tool_input" = Ok tool_input
    /\ subscript tool_input "response" = Ok response
    /\ [JString "hello"] = [response] /\ @nil Call = [].
Proof.
  intros tool.
  exact (@final_only_for_single_conversational example_text
           (mkLlm None "sncloud") [tool] [] [] [JString "hello"] eq_refl).
Defined.

Lemma several_conversational_responses_are_dropped_witness :
  let tool := invocation "ConversationalResponse"
                (JObject [("response", JString "hello")]) in
  @execute example_text (mkLlm (Some [example_tool]) "sncloud") [tool; tool] []
  = ([], Ok (false, [])).
Proof.
  intros tool.
  refine (@several_conversational_responses_are_dropped example_text
            (mkLlm (Some [example_tool]) "sncloud") [tool; tool] [] _ _).
  - repeat constructor; exists "ConversationalResponse"; split; reflexivity.
  - simpl. lia.
Defined.

Lemma converters_accept_the_same_histories_witness :
  let E := example_environment "hello" None in
  let msgs := [mkMessage "system" "s"; mkMessage "function" "f"; mkMessage "ai" "a"] in
  @msgs_to_llama3_str msgs = Err (ValueError "Invalid message type: function")
  /\ @msgs_to_sncloud E msgs = Err (ValueError "Invalid message type: function").
Proof.
  intros E msgs.
  refine (proj2 (@converters_accept_the_same_histories E msgs)
            [mkMessage "system" "s"] (mkMessage "function" "f") [mkMessage "ai" "a"]
            eq_refl _ _).
  - repeat constructor.
  - intros [H | [H | [H | H]]]; discriminate.
Defined.

Lemma plain_first_answer_returns_at_once_witness :
  let E := example_environment "hello" None in
  let prompt := String.append "You have access to tools" (String "010" "hi") in
  @function_call_llm example_text E (mkLlm (Some [example_tool]) "sncloud") "hi" 5 []
  = ([ModelCall prompt], Ok (Some (JString "hello", JNumber 0))).
Proof.
  intros E prompt.
  refine (@plain_first_answer_returns_at_once example_text E
            (mkLlm (Some [example_tool]) "sncloud") [example_tool] "hi" 5 prompt []
            eq_refl eq_refl _ eq_refl eq_refl).
  lia.
Defined.

End FunctionCallingProofs.

(** ** The user agent's configuration and the orchestrator's mapping *)

Module UserConfigProofs.
Import Orchestrator UserConfig.

(** X30. A user agent that loads the node urls written by the orchestrator
    finds its protocol database: when the user's [protocolDb] is a protocol
    database of the orchestrator's configuration, [load_config] returns,
    [get_protocol_db_url] is the url of that database's port, and the user's
    tasks have been appended to [TASK_CONFIGS]. *)
Theorem load_config_finds_the_protocol_db user_name file entry config (i : nat) g :
  UserConfig.users file !! user_name = Some entry ->
  protocolDbs config !! i = Some (protocolDb entry) ->
  protocolDb entry ∉ drop (S i) (protocolDbs config) ->
  let r := load_config user_name file (create_id_to_url_mappings config) g in
  r.2 = Return tt
  /\ get_protocol_db_url r.1
     = Some (url (startingPorts_protocolDb config + Z.of_nat i))
  /\ TASK_CONFIGS r.1 = TASK_CONFIGS g ++ tasks entry.
Proof.
  intros Hu Hi Hn r.
  destruct (OrchestratorProofs.mapping_lookup config (protocolDb entry)) as (Hd & _).
  specialize (Hd i Hi Hn).
  unfold r, load_config, bind, modify, gets, ret, raise. cbn [fst snd].
  rewrite Hu. cbn [NODE_URLS].
  rewrite (lookup_union_Some_l _ _ _ _ Hd). cbn [fst snd].
  by repeat split.
Qed.

Lemma load_config_finds_the_protocol_db_witness :
  get_protocol_db_url
    (load_config "alice" example_file (create_id_to_url_mappings example_config)
       initial_globals).1
  = Some (url 7001).
Proof.
  refine (proj1 (proj2 (load_config_finds_the_protocol_db "alice" example_file
                          (mkUser [mkTask "weather" ["Rome"; "Oslo"] ["server1"]] "db2")
                          example_config 1 initial_globals eq_refl eq_refl _))).
  vm_compute. apply not_elem_of_nil.
Defined.

End UserConfigProofs.
